(** * ai_travel_agent front end: the form components and the response cleaner

    A shallow embedding of the four React components of the front end
    (ChatInput, HealthCheck, AdditionalInfo, FinalResponse):

    - JavaScript strings are sequences of UTF-16 code units, kept as
      [list N]; [String.prototype.trim] and the regular expression class
      [\s] use the ECMAScript white space and line terminator set;
    - the three tag regular expressions and the blank-line one of
      [cleanResponse] are values of a small regular expression syntax, run by
      a backtracking matcher that tries alternatives in the order the
      ECMAScript matcher does (greedy: longest first, lazy: shortest first);
    - a component is a record of its [useState] cells; an event handler is a
      state transformer; an [async] handler is cut at its single [await]
      into the part that runs at once and the part that runs when the
      promise settles. *)

From Stdlib Require Import List NArith Lia Bool String Ascii Arith.
From Stdlib Require Import DecimalString.
Import ListNotations.

Local Open Scope N_scope.

(** ** JavaScript strings *)

Module JsString.

(** A string value: its UTF-16 code units. *)
Definition t := list N.

(** A literal of the source, written with a Rocq string (the literals of
    the components are ASCII, one code unit per character). *)
Definition str (s : string) : t :=
  List.map N_of_ascii (list_ascii_of_string s).

(** [!s] for a string: only the empty string is falsy. *)
Definition truthy (s : t) : bool :=
  match s with [] => false | _ :: _ => true end.

(** WhiteSpace and LineTerminator code points of ECMAScript: TAB, LF, VT,
    FF, CR, SP, NBSP, U+1680, U+2000..U+200A, LS, PS, U+202F, U+205F,
    U+3000 and the byte order mark. *)
Definition is_ws (c : N) : bool :=
  ((9 <=? c) && (c <=? 13))
  || (c =? 32) || (c =? 160) || (c =? 5760)
  || ((8192 <=? c) && (c <=? 8202))
  || (c =? 8232) || (c =? 8233) || (c =? 8239) || (c =? 8287)
  || (c =? 12288) || (c =? 65279).

Fixpoint trimStart (s : t) : t :=
  match s with
  | c :: s' => if is_ws c then trimStart s' else s
  | [] => []
  end.

Definition trimEnd (s : t) : t := rev (trimStart (rev s)).

(** [s.trim()] *)
Definition trim (s : t) : t := trimEnd (trimStart s).

Definition eqb (a b : t) : bool :=
  if list_eq_dec N.eq_dec a b then true else false.

(** [String(n)] for a non-negative integer. *)
Definition of_N (n : N) : t :=
  str (NilZero.string_of_uint (N.to_uint n)).

End JsString.

Definition jsstring : Type := JsString.t.
Definition str : string -> jsstring := JsString.str.

(** ** Regular expressions *)

Module Regex.

Definition LF : N := 10.
Definition LT : N := 60.   (* < *)
Definition GT : N := 62.   (* > *)
Definition SLASH : N := 47.

(** Character sets that occur in the patterns of the source. *)
Inductive charset : Type :=
| CChar (c : N)      (* a pattern character *)
| CNot (c : N)       (* [^c] *)
| CSpace             (* \s *)
| CAny.              (* [\s\S] *)

(** The pattern syntax: quantifiers are applied to character sets only,
    as everywhere in the source. *)
Inductive regex : Type :=
| REps
| RSet (cs : charset)
| RSeq (r1 r2 : regex)
| RAlt (r1 r2 : regex)                (* r1|r2 *)
| ROpt (r : regex)                    (* r? *)
| RStar (cs : charset)                (* cs* *)
| RStarLazy (cs : charset)            (* cs*? *)
| RPlus (cs : charset).               (* cs+ *)

Fixpoint RLit (s : jsstring) : regex :=
  match s with
  | [] => REps
  | c :: s' => RSeq (RSet (CChar c)) (RLit s')
  end.

(** Canonicalize of the [i] flag without the [u] flag: the upper case of
    the code unit, except that a code unit from 128 on is never mapped
    below 128.  The patterns hold ASCII characters only, so the upper case
    of the other code units is left out: they are compared as they are. *)
Definition canonicalize (icase : bool) (c : N) : N :=
  if icase && (97 <=? c) && (c <=? 122) then c - 32 else c.

Definition set_match (icase : bool) (cs : charset) (x : N) : bool :=
  match cs with
  | CChar c => canonicalize icase x =? canonicalize icase c
  | CNot c => negb (canonicalize icase x =? canonicalize icase c)
  | CSpace => JsString.is_ws x
  | CAny => true
  end.

Definition cont := jsstring -> option jsstring.

(** Greedy [cs*]: take one more character first, give it back when the
    rest of the pattern fails. *)
Fixpoint star_greedy (p : N -> bool) (s : jsstring) (k : cont) : option jsstring :=
  match s with
  | x :: s' =>
      if p x then
        match star_greedy p s' k with
        | Some r => Some r
        | None => k s
        end
      else k s
  | [] => k []
  end.

(** Lazy [cs*?]: try the rest of the pattern first, take one more
    character when it fails. *)
Fixpoint star_lazy (p : N -> bool) (s : jsstring) (k : cont) : option jsstring :=
  match k s with
  | Some r => Some r
  | None =>
      match s with
      | x :: s' => if p x then star_lazy p s' k else None
      | [] => None
      end
  end.

(** The backtracking matcher in continuation-passing style: [rmatch i r s
    k] matches [r] at the head of [s] and hands what is left to [k]; the
    first success in the matcher's order of choices is the result. *)
Fixpoint rmatch (icase : bool) (r : regex) (s : jsstring) (k : cont) : option jsstring :=
  match r with
  | REps => k s
  | RSet cs =>
      match s with
      | x :: s' => if set_match icase cs x then k s' else None
      | [] => None
      end
  | RSeq r1 r2 => rmatch icase r1 s (fun s' => rmatch icase r2 s' k)
  | RAlt r1 r2 =>
      match rmatch icase r1 s k with
      | Some r => Some r
      | None => rmatch icase r2 s k
      end
  | ROpt r1 =>
      match rmatch icase r1 s k with
      | Some r => Some r
      | None => k s
      end
  | RStar cs => star_greedy (set_match icase cs) s k
  | RStarLazy cs => star_lazy (set_match icase cs) s k
  | RPlus cs =>
      match s with
      | x :: s' =>
          if set_match icase cs x
          then star_greedy (set_match icase cs) s' k
          else None
      | [] => None
      end
  end.

(** A match at the head of [s]: what follows the match. *)
Definition match_at (icase : bool) (r : regex) (s : jsstring) : option jsstring :=
  rmatch icase r s (fun rest => Some rest).

(** Length of the match at the head of [s], for a matcher [m] that returns
    what follows the match. *)
Definition match_len (m : cont) (s : jsstring) : option nat :=
  match m s with
  | Some rest => Some (List.length s - List.length rest)%nat
  | None => None
  end.

(** The loop of a global replace: scan from the left; [skip] counts the
    characters of the current match still to be dropped.  After an empty
    match the scan advances by one character, which is kept. *)
Fixpoint replace_with (m : cont) (rep : jsstring) (skip : nat) (s : jsstring) : jsstring :=
  match s with
  | [] =>
      match skip, match_len m [] with
      | O, Some _ => rep
      | _, _ => []
      end
  | x :: s' =>
      match skip with
      | S n => replace_with m rep n s'
      | O =>
          match match_len m s with
          | Some (S n) => rep ++ replace_with m rep n s'
          | Some O => rep ++ x :: replace_with m rep O s'
          | None => x :: replace_with m rep O s'
          end
      end
  end.

(** [s.replace(/r/g, rep)], with the [i] flag when [icase]. *)
Definition replace_all (icase : bool) (r : regex) (rep : jsstring) (s : jsstring) : jsstring :=
  replace_with (match_at icase r) rep O s.

(** A matcher that consumes something whenever it matches. *)
Definition consuming (m : cont) : Prop :=
  forall s r, m s = Some r -> exists pre, pre <> [] /\ s = pre ++ r.

End Regex.

(** ** AdditionalInfo: cleanResponse *)

Module Clean.
Import Regex.

(** /<search_rag>[\s\S]*?<\/search_rag>/gi *)
Definition re_search_rag : regex :=
  RSeq (RLit (str "<search_rag>"))
       (RSeq (RStarLazy CAny) (RLit (str "</search_rag>"))).

(** /<duckduckgo_search>[\s\S]*?<\/duckduckgo_search>/gi *)
Definition re_duckduckgo : regex :=
  RSeq (RLit (str "<duckduckgo_search>"))
       (RSeq (RStarLazy CAny) (RLit (str "</duckduckgo_search>"))).

(** /<\/?(search_rag|duckduckgo_search)[^>]*>/gi *)
Definition re_standalone : regex :=
  RSeq (RSet (CChar LT))
       (RSeq (ROpt (RSet (CChar SLASH)))
             (RSeq (RAlt (RLit (str "search_rag")) (RLit (str "duckduckgo_search")))
                   (RSeq (RStar (CNot GT)) (RSet (CChar GT))))).

(** /\n\s*\n\s*\n+/g *)
Definition re_blank_lines : regex :=
  RSeq (RSet (CChar LF))
       (RSeq (RStar CSpace)
             (RSeq (RSet (CChar LF))
                   (RSeq (RStar CSpace) (RPlus (CChar LF))))).

Definition cleanResponse (text : jsstring) : jsstring :=
  if negb (JsString.truthy text) then text
  else
    let cleaned := replace_all true re_search_rag [] text in
    let cleaned := replace_all true re_duckduckgo [] cleaned in
    let cleaned := replace_all true re_standalone [] cleaned in
    let cleaned := replace_all false re_blank_lines [LF; LF] cleaned in
    JsString.trim cleaned.

End Clean.

(** ** The cleaner, said directly

    The same five steps with the matches described as the specification words
    them, without the regular expression matcher: a paired tag is an opening
    tag and everything up to the first closing tag after it; a standalone tag
    is [<] or [</], one of the two names, and everything up to the next [>];
    a blank-line run starts at a line feed and ends at the last line feed of
    the white space that follows, when that white space holds two or more. *)

Module Direct.
Import Regex.

Definition same_char (icase : bool) (a b : N) : bool :=
  canonicalize icase a =? canonicalize icase b.

(** [s] starts with [p]: what follows. *)
Fixpoint strip_prefix (icase : bool) (p s : jsstring) : option jsstring :=
  match p, s with
  | [], _ => Some s
  | c :: p', x :: s' => if same_char icase x c then strip_prefix icase p' s' else None
  | _ :: _, [] => None
  end.

(** First occurrence of [p] in [s]: what follows it. *)
Fixpoint find_after (icase : bool) (p s : jsstring) : option jsstring :=
  match strip_prefix icase p s with
  | Some r => Some r
  | None =>
      match s with
      | _ :: s' => find_after icase p s'
      | [] => None
      end
  end.

Definition open_tag (name : string) : jsstring := str ("<" ++ name ++ ">").
Definition close_tag (name : string) : jsstring := str ("</" ++ name ++ ">").

(** An opening tag [<op] and what follows the first closing tag [<cl]
    after it. *)
Definition pair_at (op cl : jsstring) : cont :=
  fun s =>
    match strip_prefix true (LT :: op) s with
    | Some body => find_after true (LT :: cl) body
    | None => None
    end.

Definition paired_tag_at (name : string) : cont :=
  pair_at (str (name ++ ">")) (str ("/" ++ name ++ ">")).

(** What follows the next [>]. *)
Fixpoint after_gt (s : jsstring) : option jsstring :=
  match s with
  | x :: s' => if x =? GT then Some s' else after_gt s'
  | [] => None
  end.

Definition tag_name_at (s : jsstring) : option jsstring :=
  match strip_prefix true (str "search_rag") s with
  | Some r => Some r
  | None => strip_prefix true (str "duckduckgo_search") s
  end.

Definition name_then_gt (s : jsstring) : option jsstring :=
  match tag_name_at s with
  | Some r => after_gt r
  | None => None
  end.

Definition standalone_tag_at (s : jsstring) : option jsstring :=
  match s with
  | x :: s1 =>
      if x =? LT then
        match s1 with
        | y :: s2 =>
            if y =? SLASH then name_then_gt s2 else name_then_gt s1
        | [] => None
        end
      else None
  | [] => None
  end.

(** The white space at the head of [s]. *)
Fixpoint ws_run (s : jsstring) : jsstring :=
  match s with
  | x :: s' => if JsString.is_ws x then x :: ws_run s' else []
  | [] => []
  end.

Definition count_lf (s : jsstring) : nat :=
  List.length (List.filter (fun x => x =? LF) s).

(** What follows the last line feed of the white space at the head of [s]. *)
Fixpoint after_last_lf (s : jsstring) : option jsstring :=
  match s with
  | x :: s' =>
      if JsString.is_ws x then
        match after_last_lf s' with
        | Some r => Some r
        | None => if x =? LF then Some s' else None
        end
      else None
  | [] => None
  end.

Definition blank_lines_at (s : jsstring) : option jsstring :=
  match s with
  | x :: s' =>
      if (x =? LF) && (2 <=? count_lf (ws_run s'))%nat
      then after_last_lf s'
      else None
  | [] => None
  end.

Definition remove_all (m : cont) (s : jsstring) : jsstring := replace_with m [] O s.

Definition collapse_blank_lines (s : jsstring) : jsstring :=
  replace_with blank_lines_at [LF; LF] O s.

Definition clean (text : jsstring) : jsstring :=
  JsString.trim
    (collapse_blank_lines
       (remove_all standalone_tag_at
          (remove_all (paired_tag_at "duckduckgo_search")
             (remove_all (paired_tag_at "search_rag") text)))).

(** Tag markup: an opening or closing tag of one of the two names begins
    somewhere in the text. *)
Definition is_some {A : Type} (o : option A) : bool :=
  match o with Some _ => true | None => false end.

Definition tag_start (s : jsstring) : bool :=
  match s with
  | x :: s1 =>
      (x =? LT) &&
      (is_some (tag_name_at s1) ||
       match s1 with
       | y :: s2 => (y =? SLASH) && is_some (tag_name_at s2)
       | [] => false
       end)
  | [] => false
  end.

Fixpoint has_tag_markup (s : jsstring) : bool :=
  tag_start s ||
  match s with
  | _ :: s' => has_tag_markup s'
  | [] => false
  end.

(** [o] is [tag] with its letters in either case. *)
Definition spells (tag o : jsstring) : Prop := strip_prefix true tag o = Some [].

(** Line feeds at the head of [s]. *)
Fixpoint lead_lf (s : jsstring) : nat :=
  match s with
  | x :: s' => if x =? LF then S (lead_lf s') else O
  | [] => O
  end.

(** No line feed is followed by two more. *)
Fixpoint triple_free (s : jsstring) : bool :=
  match s with
  | x :: s' => negb ((x =? LF) && (2 <=? lead_lf s')%nat) && triple_free s'
  | [] => true
  end.

(** The example of the specification. *)
Definition example_text : jsstring :=
  str "before<search_rag>anything here" ++ [LF] ++ str "multiline</search_rag>after".

Definition example_plain : jsstring :=
  str "  a < b" ++ [LF; LF; LF; LF] ++ str "next <b>line</b> " ++ [LF].

End Direct.

(** ** JavaScript values and handlers *)

Module Js.

(** A string-valued property that may be absent ([undefined]): truthy when
    present and not empty. *)
Definition truthy (v : option jsstring) : bool :=
  match v with
  | Some s => JsString.truthy s
  | None => false
  end.

(** [a || b] *)
Definition or_else (a b : option jsstring) : option jsstring :=
  if truthy a then a else b.

(** [a || 'literal'] *)
Definition or_lit (a : option jsstring) (lit : jsstring) : jsstring :=
  match a with
  | Some s => if JsString.truthy s then s else lit
  | None => lit
  end.

(** Values of the properties of a request object. *)
Inductive value : Type :=
| VUndefined
| VString (s : jsstring).

(** An object literal: its properties in source order. *)
Definition object := list (string * value).

Fixpoint get (o : object) (key : string) : option value :=
  match o with
  | (k, v) :: o' => if String.eqb k key then Some v else get o' key
  | [] => None
  end.

(** Modelled from the spec: the api service module (services/api) is not
    among the sources.  The request is called with [{query}] and with
    [{content, user_query?}], a property left out when it has no value: the
    body that goes out holds the properties whose value is not
    [undefined]. *)
Definition wire_body (o : object) : object :=
  List.filter (fun kv => match snd kv with VUndefined => false | VString _ => true end) o.

(** What the server error body may carry. *)
Record ErrorBody : Type := {
  detail : option jsstring;
  message : option jsstring
}.

Record ErrorResponse : Type := {
  data : option ErrorBody;
  status : N;
  statusText : jsstring
}.

(** The value caught by [catch (err: any)]: [err.response], whether
    [err.request] is set, and [err.message]. *)
Record Error : Type := {
  response : option ErrorResponse;
  request : bool;
  err_message : option jsstring
}.

(** How the awaited promise settles. *)
Inductive outcome (A : Type) : Type :=
| Resolved (data : A)
| Rejected (err : Error).
Arguments Resolved {A} data.
Arguments Rejected {A} err.

(** [err.response?.data?.detail] *)
Definition response_detail (err : Error) : option jsstring :=
  match response err with
  | Some r => match data r with Some b => detail b | None => None end
  | None => None
  end.

(** Statements of a handler: they read and write the component state and
    may throw. *)
Section Exec.
Variable S : Type.

Definition exec (A : Type) : Type := S -> (A + Error) * S.

Definition ret {A} (a : A) : exec A := fun s => (inl a, s).

Definition bind {A B} (c : exec A) (f : A -> exec B) : exec B :=
  fun s =>
    match c s with
    | (inl a, s') => f a s'
    | (inr e, s') => (inr e, s')
    end.

Definition modify (f : S -> S) : exec unit := fun s => (inl tt, f s).

(** [await p] for a promise that settles as [o]. *)
Definition await {A} (o : outcome A) : exec A :=
  fun s =>
    match o with
    | Resolved d => (inl d, s)
    | Rejected e => (inr e, s)
    end.

(** [try { body } catch (err) { handler } finally { fin }] *)
Definition try_catch_finally (body : exec unit) (handler : Error -> exec unit)
           (fin : exec unit) : exec unit :=
  fun s =>
    let after :=
      match body s with
      | (inl tt, s') => (inl tt, s')
      | (inr e, s') => handler e s'
      end in
    match fin (snd after) with
    | (inl tt, s'') => (fst after, s'')
    | (inr e, s'') => (inr e, s'')
    end.

(** The state a handler leaves. *)
Definition run (c : exec unit) (s : S) : S := snd (c s).

End Exec.

Arguments ret {S A} a.
Arguments bind {S A B} c f.
Arguments modify {S} f.
Arguments await {S A} o.
Arguments try_catch_finally {S} body handler fin.
Arguments run {S} c s.

(** An [async] handler with one [await]: either it returns before the
    call, or it leaves a state, issues a request, and goes on from the
    state of that later moment with the way the promise settled. *)
Inductive async (S Req Resp : Type) : Type :=
| Return (s : S)
| Call (s : S) (req : Req) (resume : outcome Resp -> S -> S).
Arguments Return {S Req Resp} s.
Arguments Call {S Req Resp} s req resume.

(** The request a handler sends, if it sends one. *)
Definition request_of {S Req Resp : Type} (a : async S Req Resp) : option Req :=
  match a with
  | Return _ => None
  | Call _ req _ => Some req
  end.

(** Every way the request of a handler settles leaves [busy] cleared. *)
Definition settles_ready {S Req Resp : Type} (busy : S -> bool)
           (a : async S Req Resp) : Prop :=
  match a with
  | Return _ => True
  | Call _ _ resume => forall o s, busy (resume o s) = false
  end.

(** A request that got no response: [err.response] unset, [err.request]
    set, and the message of the transport. *)
Definition network_error : Error :=
  {| response := None; request := true; err_message := Some (str "Network Error") |}.

End Js.

Declare Scope exec_scope.
Delimit Scope exec_scope with exec.
Notation "x <- c ;; k" := (Js.bind c (fun x => k))
  (at level 61, c at next level, right associativity) : exec_scope.
Notation "c ;; k" := (Js.bind c (fun _ => k))
  (at level 61, right associativity) : exec_scope.

(** The request lifecycle of a form, read off [loading], the stored result
    and the error message. *)
Inductive phase : Type := Idle | Loading | Success | Failed.

Definition lifecycle {R : Type} (loading : bool) (result : option R)
           (error : option jsstring) : option phase :=
  match loading, result, error with
  | false, None, None => Some Idle
  | true, None, None => Some Loading
  | false, Some _, None => Some Success
  | false, None, Some _ => Some Failed
  | _, _, _ => None
  end.

(** ** ChatInput *)

Module ChatInput.

Record state : Type := { message : jsstring }.

(** The calls of [onSendMessage] made by a handler, in order. *)
Definition calls := list jsstring.

Definition setMessage (v : jsstring) (st : state) : state := {| message := v |}.

Definition handleSubmit (st : state) : state * calls :=
  if JsString.truthy (JsString.trim (message st))
  then (setMessage [] st, [JsString.trim (message st)])
  else (st, []).

Definition handleKeyDown (key : jsstring) (shiftKey : bool) (st : state) : state * calls :=
  if JsString.eqb key (str "Enter") && negb shiftKey
  then handleSubmit st
  else (st, []).

(** [disabled] of the Textarea and of the Button. *)
Definition textarea_disabled (disabled : bool) (st : state) : bool := disabled.

Definition button_disabled (disabled : bool) (st : state) : bool :=
  negb (JsString.truthy (JsString.trim (message st))) || disabled.

Inductive event : Type :=
| Change (v : jsstring)                     (* typing in the text area *)
| Click                                     (* the submit button *)
| KeyDown (key : jsstring) (shiftKey : bool). (* a key in the text area *)

(** Modelled from the spec: the Textarea and Button components
    (components/ui) are not among the sources.  "While disabled, input and
    submit control are inert": a control whose [disabled] is set delivers
    no event; otherwise typing reaches [onChange], a key [onKeyDown], and a
    click on the submit button [onSubmit] of the form. *)
Definition dispatch (disabled : bool) (ev : event) (st : state) : state * calls :=
  match ev with
  | Change v =>
      if textarea_disabled disabled st then (st, []) else (setMessage v st, [])
  | Click =>
      if button_disabled disabled st then (st, []) else handleSubmit st
  | KeyDown key shiftKey =>
      if textarea_disabled disabled st then (st, []) else handleKeyDown key shiftKey st
  end.

(** A run of events, the calls of all of them in order. *)
Fixpoint dispatch_all (disabled : bool) (evs : list event) (st : state) : state * calls :=
  match evs with
  | [] => (st, [])
  | ev :: evs' =>
      let (st1, c1) := dispatch disabled ev st in
      let (st2, c2) := dispatch_all disabled evs' st1 in
      (st2, c1 ++ c2)
  end.

End ChatInput.

(** ** HealthCheck *)

Module HealthCheck.
Import Js.
Local Open Scope exec_scope.

Record Health : Type := {
  h_status : jsstring;
  h_message : jsstring;
  h_version : jsstring
}.

Record state : Type := {
  health : option Health;
  loading : bool;
  error : option jsstring
}.

Definition init : state := {| health := None; loading := false; error := None |}.

Definition setHealth (v : option Health) (st : state) : state :=
  {| health := v; loading := loading st; error := error st |}.
Definition setLoading (v : bool) (st : state) : state :=
  {| health := health st; loading := v; error := error st |}.
Definition setError (v : option jsstring) (st : state) : state :=
  {| health := health st; loading := loading st; error := v |}.

(** [err.response?.data?.detail || err.message || 'Failed to check health'] *)
Definition errorMessage (err : Error) : jsstring :=
  or_lit (or_else (response_detail err) (err_message err)) (str "Failed to check health").

Definition checkHealth_start (st : state) : state :=
  setError None (setLoading true st).

Definition checkHealth_settled (o : outcome (option Health)) : exec state unit :=
  try_catch_finally
    (data <- await o ;;
     modify (setHealth data))
    (fun err => modify (setError (Some (errorMessage err))))
    (modify (setLoading false)).

Definition checkHealth (st : state) : async state unit (option Health) :=
  Call (checkHealth_start st) tt (fun o => run (checkHealth_settled o)).

(** The component with its request in flight, if any.  [checkHealth] runs
    on mount and from the refresh button, which is disabled while
    loading. *)
Record world : Type := { st : state; in_flight : bool }.

Inductive step : world -> world -> Prop :=
| step_refresh w :
    loading (st w) = false ->
    step w {| st := checkHealth_start (st w); in_flight := true |}
| step_settle w o :
    in_flight w = true ->
    step w {| st := run (checkHealth_settled o) (st w); in_flight := false |}.

(** After mount: the effect has called [checkHealth]. *)
Definition mounted : world :=
  {| st := checkHealth_start init; in_flight := true |}.

Inductive reachable : world -> Prop :=
| reach_mount : reachable mounted
| reach_step w w' : reachable w -> step w w' -> reachable w'.

Definition status_of (s : state) : option phase :=
  lifecycle (loading s) (health s) (error s).

End HealthCheck.

(** ** AdditionalInfo *)

Module AdditionalInfo.
Import Js.
Local Open Scope exec_scope.

(** The response of the gather-information call, as far as the component
    reads it. *)
Record InfoData : Type := {
  d_success : option bool;
  d_query : option jsstring;
  d_info : option jsstring;
  d_message : option jsstring
}.

(** [{...data, info: v}] *)
Definition with_info (d : InfoData) (v : jsstring) : InfoData :=
  {| d_success := d_success d; d_query := d_query d;
     d_info := Some v; d_message := d_message d |}.

Record state : Type := {
  query : jsstring;
  result : option InfoData;
  loading : bool;
  error : option jsstring
}.

Definition init : state :=
  {| query := []; result := None; loading := false; error := None |}.

Definition setQuery (v : jsstring) (st : state) : state :=
  {| query := v; result := result st; loading := loading st; error := error st |}.
Definition setResult (v : option InfoData) (st : state) : state :=
  {| query := query st; result := v; loading := loading st; error := error st |}.
Definition setLoading (v : bool) (st : state) : state :=
  {| query := query st; result := result st; loading := v; error := error st |}.
Definition setError (v : option jsstring) (st : state) : state :=
  {| query := query st; result := result st; loading := loading st; error := v |}.

Definition msg_enter_query : jsstring := str "Please enter a query".
Definition msg_empty_response : jsstring :=
  str "Received empty response from server. Please try again.".
Definition msg_no_response : jsstring :=
  str "No response from server. Please check if the API server is running.".
Definition msg_failed : jsstring := str "Failed to gather information".

(** The message computed by the [catch] block. *)
Definition errorMessage (err : Error) : jsstring :=
  match response err with
  | Some r =>
      let body_detail := match data r with Some b => detail b | None => None end in
      let body_message := match data r with Some b => message b | None => None end in
      or_lit (or_else body_detail body_message)
             (str "Server error: " ++ JsString.of_N (status r) ++ str " " ++ statusText r)
  | None =>
      if request err then msg_no_response
      else or_lit (err_message err) msg_failed
  end.

(** The three setters before the [try]. *)
Definition handleSubmit_start (st : state) : state :=
  setResult None (setError None (setLoading true st)).

(** From the [await] to the end of the [finally]. *)
Definition handleSubmit_settled (o : outcome (option InfoData)) : exec state unit :=
  try_catch_finally
    (data <- await o ;;
     match data with
     | Some d =>
         match d_info d with
         | Some i =>
             if JsString.truthy i
             then modify (setResult (Some (with_info d (Clean.cleanResponse i))))
             else modify (setError (Some msg_empty_response))
         | None => modify (setError (Some msg_empty_response))
         end
     | None => modify (setError (Some msg_empty_response))
     end)
    (fun err => modify (setError (Some (errorMessage err))))
    (modify (setLoading false)).

Definition handleSubmit (st : state) : async state object (option InfoData) :=
  if negb (JsString.truthy (JsString.trim (query st)))
  then Return (setError (Some msg_enter_query) st)
  else Call (handleSubmit_start st)
            [("query"%string, VString (query st))]
            (fun o => run (handleSubmit_settled o)).

Definition input_disabled (st : state) : bool := loading st.

Definition button_disabled (st : state) : bool :=
  loading st || negb (JsString.truthy (JsString.trim (query st))).

(** The component with the request in flight, if any. *)
Record world : Type := { st : state; in_flight : option object }.

Definition after_submit (w : world) : world :=
  match handleSubmit (st w) with
  | Return s => {| st := s; in_flight := in_flight w |}
  | Call s req _ => {| st := s; in_flight := Some req |}
  end.

(** What can happen to the rendered form: typing in the input (disabled
    while loading), a submission through the submit button (disabled while
    loading or while the trimmed query is empty), and the request in
    flight settling. *)
Inductive step : world -> world -> Prop :=
| step_change w v :
    input_disabled (st w) = false ->
    step w {| st := setQuery v (st w); in_flight := in_flight w |}
| step_submit w :
    button_disabled (st w) = false ->
    step w (after_submit w)
| step_settle w o :
    in_flight w <> None ->
    step w {| st := run (handleSubmit_settled o) (st w); in_flight := None |}.

Inductive reachable : world -> Prop :=
| reach_init : reachable {| st := init; in_flight := None |}
| reach_step w w' : reachable w -> step w w' -> reachable w'.

Definition status_of (s : state) : option phase :=
  lifecycle (loading s) (result s) (error s).

(** The status is one of the four, and a request is in flight only while
    loading. *)
Definition consistent (w : world) : Prop :=
  status_of (st w) <> None /\ (in_flight w <> None -> loading (st w) = true).

(** The three cells exclude one another. *)
Definition exclusive (s : state) : Prop :=
  ~ (result s <> None /\ error s <> None) /\
  (loading s = true -> result s = None /\ error s = None).

End AdditionalInfo.

(** ** FinalResponse *)

Module FinalResponse.
Import Js.
Local Open Scope exec_scope.

Record FinalData : Type := {
  d_success : option bool;
  d_response : option jsstring;
  d_message : option jsstring
}.

Record state : Type := {
  content : jsstring;
  userQuery : jsstring;
  result : option FinalData;
  loading : bool;
  error : option jsstring
}.

Definition init : state :=
  {| content := []; userQuery := []; result := None; loading := false; error := None |}.

Definition setContent (v : jsstring) (st : state) : state :=
  {| content := v; userQuery := userQuery st; result := result st;
     loading := loading st; error := error st |}.
Definition setUserQuery (v : jsstring) (st : state) : state :=
  {| content := content st; userQuery := v; result := result st;
     loading := loading st; error := error st |}.
Definition setResult (v : option FinalData) (st : state) : state :=
  {| content := content st; userQuery := userQuery st; result := v;
     loading := loading st; error := error st |}.
Definition setLoading (v : bool) (st : state) : state :=
  {| content := content st; userQuery := userQuery st; result := result st;
     loading := v; error := error st |}.
Definition setError (v : option jsstring) (st : state) : state :=
  {| content := content st; userQuery := userQuery st; result := result st;
     loading := loading st; error := v |}.

Definition msg_enter_content : jsstring := str "Please enter content to synthesize".
Definition msg_failed : jsstring := str "Failed to generate response".

(** [err.response?.data?.detail || err.message || 'Failed to generate response'] *)
Definition errorMessage (err : Error) : jsstring :=
  or_lit (or_else (response_detail err) (err_message err)) msg_failed.

(** [{ content, user_query: userQuery || undefined }] *)
Definition payload (st : state) : object :=
  [("content"%string, VString (content st));
   ("user_query"%string,
     if JsString.truthy (userQuery st) then VString (userQuery st) else VUndefined)].

Definition handleSubmit_start (st : state) : state :=
  setResult None (setError None (setLoading true st)).

Definition handleSubmit_settled (o : outcome (option FinalData)) : exec state unit :=
  try_catch_finally
    (data <- await o ;;
     modify (setResult data))
    (fun err => modify (setError (Some (errorMessage err))))
    (modify (setLoading false)).

Definition handleSubmit (st : state) : async state object (option FinalData) :=
  if negb (JsString.truthy (JsString.trim (content st)))
  then Return (setError (Some msg_enter_content) st)
  else Call (handleSubmit_start st) (payload st)
            (fun o => run (handleSubmit_settled o)).

Definition input_disabled (st : state) : bool := loading st.

Definition button_disabled (st : state) : bool :=
  loading st || negb (JsString.truthy (JsString.trim (content st))).

Record world : Type := { st : state; in_flight : option object }.

Definition after_submit (w : world) : world :=
  match handleSubmit (st w) with
  | Return s => {| st := s; in_flight := in_flight w |}
  | Call s req _ => {| st := s; in_flight := Some req |}
  end.

Inductive step : world -> world -> Prop :=
| step_content w v :
    input_disabled (st w) = false ->
    step w {| st := setContent v (st w); in_flight := in_flight w |}
| step_user_query w v :
    input_disabled (st w) = false ->
    step w {| st := setUserQuery v (st w); in_flight := in_flight w |}
| step_submit w :
    button_disabled (st w) = false ->
    step w (after_submit w)
| step_settle w o :
    in_flight w <> None ->
    step w {| st := run (handleSubmit_settled o) (st w); in_flight := None |}.

Inductive reachable : world -> Prop :=
| reach_init : reachable {| st := init; in_flight := None |}
| reach_step w w' : reachable w -> step w w' -> reachable w'.

Definition status_of (s : state) : option phase :=
  lifecycle (loading s) (result s) (error s).

(** The status is one of the four, and a request is in flight only while
    loading. *)
Definition consistent (w : world) : Prop :=
  status_of (st w) <> None /\ (in_flight w <> None -> loading (st w) = true).

(** The three cells exclude one another. *)
Definition exclusive (s : state) : Prop :=
  ~ (result s <> None /\ error s <> None) /\
  (loading s = true -> result s = None /\ error s = None).

End FinalResponse.


(** ** Sample states *)

Module Samples.

Definition healthy : HealthCheck.Health :=
  {| HealthCheck.h_status := str "healthy";
     HealthCheck.h_message := str "API is running";
     HealthCheck.h_version := str "1.0.0" |}.

(** HealthCheck after mount and a first successful check. *)
Definition health_shown : HealthCheck.world :=
  {| HealthCheck.st :=
       Js.run (HealthCheck.checkHealth_settled (Js.Resolved (Some healthy)))
              (HealthCheck.checkHealth_start HealthCheck.init);
     HealthCheck.in_flight := false |}.

(** ... and after a click on the refresh button. *)
Definition health_refreshing : HealthCheck.world :=
  {| HealthCheck.st := HealthCheck.checkHealth_start (HealthCheck.st health_shown);
     HealthCheck.in_flight := true |}.

(** AdditionalInfo with a query typed in, surrounded by blanks. *)
Definition info_typed : AdditionalInfo.state :=
  AdditionalInfo.setQuery (str "  San Diego Zoo  ") AdditionalInfo.init.

Definition info_submitted : AdditionalInfo.world :=
  AdditionalInfo.after_submit
    {| AdditionalInfo.st := info_typed; AdditionalInfo.in_flight := None |}.

(** FinalResponse with content typed in and the query left blank. *)
Definition final_typed : FinalResponse.state :=
  FinalResponse.setContent (str " The Strip is 4.2 miles long. ") FinalResponse.init.

(** ... and with a query as well. *)
Definition final_typed_query : FinalResponse.state :=
  FinalResponse.setUserQuery (str "Tell me about the Las Vegas Strip") final_typed.

Definition final_submitted : FinalResponse.world :=
  FinalResponse.after_submit
    {| FinalResponse.st := final_typed; FinalResponse.in_flight := None |}.

End Samples.

(** ** Text relations *)

Module Text.

(** [a] is [b] with some characters left out. *)
Inductive subseq : jsstring -> jsstring -> Prop :=
| subseq_nil : subseq [] []
| subseq_skip x a b : subseq a b -> subseq a (x :: b)
| subseq_take x a b : subseq a b -> subseq (x :: a) (x :: b).

(** The first character, if any, is not white space. *)
Definition starts_clean (s : jsstring) : Prop :=
  match s with
  | [] => True
  | x :: _ => JsString.is_ws x = false
  end.

(** Neither the first nor the last character is white space. *)
Definition trimmed (s : jsstring) : Prop :=
  (forall c rest, s = c :: rest -> JsString.is_ws c = false) /\
  (forall init c, s = init ++ [c] -> JsString.is_ws c = false).

End Text.

(** ** The Markdown element overrides

    Both AdditionalInfo and FinalResponse pass the same [components] to
    ReactMarkdown.  The [code] override reads [className] and chooses between
    the inline style and the class it was given. *)

Module MarkdownCode.
Import Regex.

(** \w *)
Definition is_word (c : N) : bool :=
  ((48 <=? c) && (c <=? 57)) || ((65 <=? c) && (c <=? 90))
  || (c =? 95) || ((97 <=? c) && (c <=? 122)).

(** /language-(\w+)/ at the head of [s]: [\w+] is the clause of [RPlus] of
    the matcher, with the class [\w]. *)
Definition language_at : cont :=
  fun s =>
    rmatch false (RLit (str "language-")) s
      (fun s1 =>
         match s1 with
         | x :: s2 => if is_word x then star_greedy is_word s2 (fun r => Some r) else None
         | [] => None
         end).

(** [re.exec(s)] without the [g] flag: the first position, from the left,
    where the pattern matches; what follows the match there. *)
Fixpoint exec (m : cont) (s : jsstring) : option jsstring :=
  match m s with
  | Some r => Some r
  | None =>
      match s with
      | _ :: s' => exec m s'
      | [] => None
      end
  end.

(** [className || ''] *)
Definition class_or_empty (className : option jsstring) : jsstring :=
  match className with
  | Some c => if JsString.truthy c then c else []
  | None => []
  end.

(** [const match = /language-(\w+)/.exec(className || '');
     const isInline = !className || !match;] *)
Definition isInline (className : option jsstring) : bool :=
  negb (Js.truthy className)
  || negb (Direct.is_some (exec language_at (class_or_empty className))).

Definition inline_class : jsstring :=
  str "bg-muted px-1.5 py-0.5 rounded text-sm font-mono text-primary".

(** The [className] of the [code] element that is rendered. *)
Definition code_class (className : option jsstring) : option jsstring :=
  if isInline className then Some inline_class else className.

End MarkdownCode.

(** ** What the components render

    The conditional parts of the JSX: which panels are shown for a state, and
    the [disabled] and the label of the controls. *)

Module Render.

(** [{x && ...}] for a string: shown when truthy. *)
Definition shown (v : option jsstring) : option jsstring :=
  if Js.truthy v then v else None.

(** [{result.success && ...}] *)
Definition flag (v : option bool) : bool :=
  match v with Some true => true | _ => false end.

(** [result.info ? <ReactMarkdown>{result.info}</ReactMarkdown>
                 : <p>No information was returned. ...</p>] *)
Inductive info_body : Type :=
| Markdown (text : jsstring)
| NoInformation.

Record info_result : Type := {
  ir_badge : bool;
  ir_query : option jsstring;
  ir_body : info_body;
  ir_message : option jsstring
}.

Record info_view : Type := {
  iv_input_disabled : bool;
  iv_button_disabled : bool;
  iv_button_label : jsstring;
  iv_loading : bool;
  iv_error : option jsstring;
  iv_result : option info_result
}.

Definition additional_info_result (d : AdditionalInfo.InfoData) : info_result :=
  {| ir_badge := flag (AdditionalInfo.d_success d);
     ir_query := shown (AdditionalInfo.d_query d);
     ir_body := match shown (AdditionalInfo.d_info d) with
                | Some i => Markdown i
                | None => NoInformation
                end;
     ir_message := shown (AdditionalInfo.d_message d) |}.

Definition additional_info (st : AdditionalInfo.state) : info_view :=
  {| iv_input_disabled := AdditionalInfo.input_disabled st;
     iv_button_disabled := AdditionalInfo.button_disabled st;
     iv_button_label :=
       if AdditionalInfo.loading st then str "Gathering Information..." else str "Search";
     iv_loading := AdditionalInfo.loading st;
     iv_error := shown (AdditionalInfo.error st);
     iv_result := option_map additional_info_result (AdditionalInfo.result st) |}.

(** FinalResponse: [{result.response && <ReactMarkdown>...}] *)
Record final_result : Type := {
  fr_badge : bool;
  fr_body : option jsstring;
  fr_message : option jsstring
}.

Record final_view : Type := {
  fv_input_disabled : bool;
  fv_button_disabled : bool;
  fv_button_label : jsstring;
  fv_loading : bool;
  fv_error : option jsstring;
  fv_result : option final_result
}.

Definition final_response_result (d : FinalResponse.FinalData) : final_result :=
  {| fr_badge := flag (FinalResponse.d_success d);
     fr_body := shown (FinalResponse.d_response d);
     fr_message := shown (FinalResponse.d_message d) |}.

Definition final_response (st : FinalResponse.state) : final_view :=
  {| fv_input_disabled := FinalResponse.input_disabled st;
     fv_button_disabled := FinalResponse.button_disabled st;
     fv_button_label :=
       if FinalResponse.loading st then str "Generating Response..." else str "Generate Response";
     fv_loading := FinalResponse.loading st;
     fv_error := shown (FinalResponse.error st);
     fv_result := option_map final_response_result (FinalResponse.result st) |}.

(** HealthCheck: the refresh button, the loading line, the error and the
    status record. *)
Record health_view : Type := {
  hv_button_disabled : bool;
  hv_button_label : jsstring;
  hv_loading : bool;
  hv_error : option jsstring;
  hv_health : option HealthCheck.Health
}.

Definition health_check (st : HealthCheck.state) : health_view :=
  {| hv_button_disabled := HealthCheck.loading st;
     hv_button_label :=
       if HealthCheck.loading st then str "Checking..." else str "Refresh Status";
     hv_loading := HealthCheck.loading st;
     hv_error := shown (HealthCheck.error st);
     hv_health := HealthCheck.health st |}.

End Render.

(** ** More sample states *)

Module MoreSamples.

(** A response whose text carries a tool call and surrounding blanks. *)
Definition zoo_data : AdditionalInfo.InfoData :=
  {| AdditionalInfo.d_success := Some true;
     AdditionalInfo.d_query := Some (str "San Diego Zoo");
     AdditionalInfo.d_info :=
       Some (str " <search_rag>zoo hours</search_rag>Open daily from 9 to 5. ");
     AdditionalInfo.d_message := None |}.

(** AdditionalInfo after the submitted query was answered with it. *)
Definition info_answered : AdditionalInfo.world :=
  {| AdditionalInfo.st :=
       Js.run (AdditionalInfo.handleSubmit_settled (Js.Resolved (Some zoo_data)))
              (AdditionalInfo.st Samples.info_submitted);
     AdditionalInfo.in_flight := None |}.

(** A response whose text is a tool call and nothing else. *)
Definition tool_call_only : AdditionalInfo.InfoData :=
  {| AdditionalInfo.d_success := Some true;
     AdditionalInfo.d_query := None;
     AdditionalInfo.d_info := Some (str "<duckduckgo_search>zoo hours</duckduckgo_search>");
     AdditionalInfo.d_message := None |}.

(** A server error with an empty body. *)
Definition server_error : Js.Error :=
  {| Js.response :=
       Some {| Js.data := None; Js.status := 503; Js.statusText := str "Service Unavailable" |};
     Js.request := true;
     Js.err_message := Some (str "Request failed with status code 503") |}.

End MoreSamples.

(** * Facts *)

(** ** The matcher on the patterns of the source *)

Section MatcherFacts.
Import Regex Direct.

(** A pattern character that is not a letter is matched by itself only,
    with or without the [i] flag. *)
Lemma same_char_symbol (icase : bool) (x c : N) :
  (c < 65 \/ (90 < c /\ c < 97) \/ 122 < c) ->
  (canonicalize icase x =? canonicalize icase c) = (x =? c).
Proof.
  intros Hc. unfold canonicalize. destruct icase; simpl; [|reflexivity].
  destruct (97 <=? x) eqn:Hx1, (x <=? 122) eqn:Hx2,
           (97 <=? c) eqn:Hc1, (c <=? 122) eqn:Hc2; simpl;
    rewrite ?N.leb_le, ?N.leb_gt in *;
    try lia; try reflexivity;
    destruct (N.eqb_spec (x - 32) c), (N.eqb_spec x c); try reflexivity; lia.
Qed.

Lemma rmatch_lit (icase : bool) (p s : jsstring) (k : cont) :
  rmatch icase (RLit p) s k =
  match strip_prefix icase p s with
  | Some r => k r
  | None => None
  end.
Proof.
  revert s. induction p as [|c p IH]; intros s; simpl.
  - reflexivity.
  - destruct s as [|x s]; [reflexivity|].
    unfold same_char. destruct (canonicalize icase x =? canonicalize icase c).
    + apply IH.
    + reflexivity.
Qed.

Lemma star_lazy_any (icase : bool) (p s : jsstring) :
  star_lazy (set_match icase CAny) s (fun s' => rmatch icase (RLit p) s' (fun r => Some r))
  = find_after icase p s.
Proof.
  induction s as [|x s IH]; simpl; rewrite rmatch_lit.
  - destruct (strip_prefix icase p []); reflexivity.
  - destruct (strip_prefix icase p (x :: s)); [reflexivity|]. apply IH.
Qed.

Lemma match_at_paired (o c s : jsstring) :
  match_at true (RSeq (RLit o) (RSeq (RStarLazy CAny) (RLit c))) s =
  match strip_prefix true o s with
  | Some body => find_after true c body
  | None => None
  end.
Proof.
  unfold match_at. cbn [rmatch]. rewrite rmatch_lit.
  destruct (strip_prefix true o s) as [body|]; [|reflexivity].
  apply star_lazy_any.
Qed.

Lemma match_at_search_rag (s : jsstring) :
  match_at true Clean.re_search_rag s = paired_tag_at "search_rag" s.
Proof. apply match_at_paired. Qed.

Lemma match_at_duckduckgo (s : jsstring) :
  match_at true Clean.re_duckduckgo s = paired_tag_at "duckduckgo_search" s.
Proof. apply match_at_paired. Qed.

Lemma star_greedy_not_gt (s : jsstring) (k : cont) :
  star_greedy (set_match true (CNot GT)) s
    (fun t => rmatch true (RSet (CChar GT)) t k)
  = match after_gt s with
    | Some r => k r
    | None => None
    end.
Proof.
  induction s as [|x s IH]; [reflexivity|].
  cbn [star_greedy after_gt rmatch set_match].
  rewrite (same_char_symbol true x GT) by (unfold GT; lia).
  destruct (x =? GT); cbn [negb].
  - reflexivity.
  - cbn [rmatch set_match] in IH. rewrite IH.
    destruct (after_gt s) as [r|]; [|reflexivity].
    destruct (k r); reflexivity.
Qed.

Lemma strip_prefix_other (icase : bool) (c1 c2 : N) (p1 p2 s : jsstring) :
  canonicalize icase c1 <> canonicalize icase c2 ->
  strip_prefix icase (c1 :: p1) s <> None ->
  strip_prefix icase (c2 :: p2) s = None.
Proof.
  intros Hne H. destruct s as [|x s]; [reflexivity|].
  simpl in *. unfold same_char in *.
  destruct (N.eqb_spec (canonicalize icase x) (canonicalize icase c1)) as [E1|]; [|congruence].
  destruct (N.eqb_spec (canonicalize icase x) (canonicalize icase c2)) as [E2|]; [|reflexivity].
  congruence.
Qed.

(** Rewrite with a matcher equation once its pattern is unfolded as far as
    the goal's. *)
Ltac rewrite_unfolded lem :=
  let G := fresh "G" in
  pose proof lem as G; cbn [rmatch] in G; rewrite G; clear G.

(** After [<] or [</]: one of the names, then anything up to [>]. *)
Lemma rmatch_name_then_gt (s : jsstring) :
  rmatch true
    (RSeq (RAlt (RLit (str "search_rag")) (RLit (str "duckduckgo_search")))
          (RSeq (RStar (CNot GT)) (RSet (CChar GT))))
    s (fun r => Some r)
  = name_then_gt s.
Proof.
  cbn [rmatch]. rewrite !rmatch_lit.
  unfold name_then_gt, tag_name_at.
  destruct (strip_prefix true (str "search_rag") s) as [r|] eqn:Ha.
  - assert (strip_prefix true (str "duckduckgo_search") s = None) as Hb.
    { change (str "duckduckgo_search") with (100 :: str "uckduckgo_search").
      apply (strip_prefix_other true 115 100 (str "earch_rag")); [discriminate|].
      change (115 :: str "earch_rag") with (str "search_rag"). congruence. }
    rewrite Hb. rewrite_unfolded (star_greedy_not_gt r (fun r => Some r)).
    destruct (after_gt r); reflexivity.
  - destruct (strip_prefix true (str "duckduckgo_search") s) as [r|]; [|reflexivity].
    rewrite_unfolded (star_greedy_not_gt r (fun r => Some r)).
    destruct (after_gt r); reflexivity.
Qed.

Lemma name_then_gt_slash (s : jsstring) : name_then_gt (SLASH :: s) = None.
Proof. reflexivity. Qed.

Lemma match_at_standalone (s : jsstring) :
  match_at true Clean.re_standalone s = standalone_tag_at s.
Proof.
  unfold match_at, Clean.re_standalone.
  destruct s as [|x s1]; [reflexivity|].
  cbn [rmatch set_match standalone_tag_at].
  rewrite (same_char_symbol true x LT) by (unfold LT; lia).
  destruct (x =? LT); [|reflexivity].
  pose proof (rmatch_name_then_gt) as K. cbn [rmatch] in K.
  destruct s1 as [|y s2].
  - rewrite K. reflexivity.
  - rewrite (same_char_symbol true y SLASH) by (unfold SLASH; lia).
    destruct (N.eqb_spec y SLASH) as [->|Hy].
    + rewrite !K, name_then_gt_slash.
      destruct (name_then_gt s2); reflexivity.
    + rewrite K. reflexivity.
Qed.

(** *** The blank-line pattern *)

Lemma is_ws_LF : JsString.is_ws LF = true.
Proof. reflexivity. Qed.

Lemma not_ws_not_LF (x : N) : JsString.is_ws x = false -> (x =? LF) = false.
Proof.
  intros H. destruct (N.eqb_spec x LF) as [->|]; [|reflexivity].
  rewrite is_ws_LF in H. discriminate.
Qed.

Lemma count_lf_cons (x : N) (s : jsstring) :
  count_lf (x :: s) = ((if (x =? LF)%N then 1 else 0) + count_lf s)%nat.
Proof. unfold count_lf. simpl. destruct (x =? LF); reflexivity. Qed.

Lemma after_last_lf_none (s : jsstring) :
  after_last_lf s = None <-> count_lf (ws_run s) = 0%nat.
Proof.
  induction s as [|x s IH]; simpl.
  - split; reflexivity.
  - destruct (JsString.is_ws x) eqn:Hw.
    + rewrite count_lf_cons.
      destruct (after_last_lf s) as [r|].
      * split; [discriminate|]. intros H.
        assert (count_lf (ws_run s) = 0%nat) as H0 by lia.
        apply IH in H0. discriminate.
      * destruct (x =? LF).
        -- split; [discriminate | intros; lia].
        -- split; [intros _|reflexivity]. simpl. apply IH. reflexivity.
    + split; reflexivity.
Qed.

Lemma after_last_lf_head (x : N) (s : jsstring) :
  after_last_lf (x :: s) = None -> (x =? LF) = false.
Proof.
  simpl. destruct (JsString.is_ws x) eqn:Hw.
  - destruct (after_last_lf s); [discriminate|].
    destruct (x =? LF); [discriminate|reflexivity].
  - intros _. apply not_ws_not_LF, Hw.
Qed.

(** [\s*\n+] to the end of the pattern. *)
Lemma star_ws_plus_lf (s : jsstring) :
  star_greedy (set_match false CSpace) s
    (fun t => rmatch false (RPlus (CChar LF)) t (fun r => Some r))
  = after_last_lf s.
Proof.
  induction s as [|x s IH]; [reflexivity|].
  cbn [star_greedy set_match after_last_lf].
  destruct (JsString.is_ws x) eqn:Hw.
  - rewrite IH. destruct (after_last_lf s) as [r|] eqn:Hs; [reflexivity|].
    cbn [rmatch set_match canonicalize andb].
    destruct (x =? LF); [|reflexivity].
    destruct s as [|y s]; [reflexivity|].
    cbn [star_greedy set_match canonicalize andb].
    rewrite (after_last_lf_head y s Hs). reflexivity.
  - cbn [rmatch set_match canonicalize andb].
    rewrite (not_ws_not_LF x Hw). reflexivity.
Qed.

(** [\s*\n\s*\n+] to the end of the pattern. *)
Lemma star_ws_lf_star_ws_plus_lf (s : jsstring) :
  star_greedy (set_match false CSpace) s
    (fun t => rmatch false
                (RSeq (RSet (CChar LF)) (RSeq (RStar CSpace) (RPlus (CChar LF))))
                t (fun r => Some r))
  = if (2 <=? count_lf (ws_run s))%nat then after_last_lf s else None.
Proof.
  induction s as [|x s IH]; [reflexivity|].
  cbn [star_greedy set_match ws_run].
  destruct (JsString.is_ws x) eqn:Hw.
  - rewrite IH. rewrite count_lf_cons.
    cbn [rmatch set_match canonicalize andb].
    pose proof (star_ws_plus_lf s) as B. cbn [rmatch set_match canonicalize andb] in B.
    rewrite B. clear B.
    pose proof (after_last_lf_none s) as Hn.
    cbn [after_last_lf]. rewrite Hw.
    destruct (Nat.leb_spec 2 (count_lf (ws_run s))) as [H2|H2].
    + destruct (after_last_lf s) as [r|].
      * destruct (2 <=? _)%nat eqn:E; [reflexivity|].
        apply Nat.leb_gt in E. lia.
      * assert (count_lf (ws_run s) = 0%nat) by (apply Hn; reflexivity). lia.
    + destruct (x =? LF).
      * destruct (after_last_lf s) as [r|].
        -- destruct (Nat.leb_spec 2 (1 + count_lf (ws_run s))) as [|H3]; [reflexivity|].
           assert (count_lf (ws_run s) = 0%nat) as H0 by lia.
           apply Hn in H0. discriminate.
        -- assert (count_lf (ws_run s) = 0%nat) as H0 by (apply Hn; reflexivity).
           rewrite H0. reflexivity.
      * destruct (Nat.leb_spec 2 (0 + count_lf (ws_run s))) as [H3|]; [simpl in H3; lia|].
        reflexivity.
  - cbn [rmatch set_match canonicalize andb].
    rewrite (not_ws_not_LF x Hw). reflexivity.
Qed.

Lemma match_at_blank_lines (s : jsstring) :
  match_at false Clean.re_blank_lines s = blank_lines_at s.
Proof.
  unfold match_at, Clean.re_blank_lines.
  destruct s as [|x s]; [reflexivity|].
  cbn [rmatch set_match blank_lines_at canonicalize andb].
  destruct (x =? LF); [|reflexivity].
  pose proof (star_ws_lf_star_ws_plus_lf s) as A. cbn [rmatch set_match canonicalize andb] in A.
  cbn [andb]. exact A.
Qed.
End MatcherFacts.

(** ** The replace loop *)

Section ReplaceFacts.
Import Regex Direct.

Lemma replace_with_ext (m1 m2 : cont) (rep : jsstring) :
  (forall s, m1 s = m2 s) ->
  forall s n, replace_with m1 rep n s = replace_with m2 rep n s.
Proof.
  intros E. induction s as [|x s IH]; intros n; simpl; unfold match_len; rewrite E.
  - reflexivity.
  - destruct n as [|n]; [|apply IH].
    destruct (m2 (x :: s)) as [r|]; [|now rewrite IH].
    destruct (List.length (x :: s) - List.length r)%nat; now rewrite IH.
Qed.

(** Where no match begins, the text is kept. *)
Lemma replace_with_none (m : cont) (rep s : jsstring) :
  (forall a b, s = a ++ b -> m b = None) ->
  replace_with m rep O s = s.
Proof.
  induction s as [|x s IH]; intros H; simpl; unfold match_len.
  - rewrite (H [] []); reflexivity.
  - rewrite (H [] (x :: s)) by reflexivity. f_equal. apply IH.
    intros a b ->. apply (H (x :: a)). reflexivity.
Qed.

Lemma consuming_nil (m : cont) : consuming m -> m [] = None.
Proof.
  intros Hm. destruct (m []) as [r|] eqn:E; [|reflexivity].
  destruct (Hm _ _ E) as (pre & Hne & Hs).
  destruct pre; [congruence|discriminate].
Qed.

Lemma replace_with_skip (m : cont) (rep s : jsstring) (n : nat) :
  m [] = None ->
  replace_with m rep n s = replace_with m rep O (skipn n s).
Proof.
  intros Hnil. revert n. induction s as [|x s IH]; intros n.
  - rewrite skipn_nil. simpl. unfold match_len. rewrite Hnil.
    destruct n; reflexivity.
  - destruct n as [|n]; [reflexivity|]. simpl skipn. cbn [replace_with]. apply IH.
Qed.

(** The loop, one match at a time. *)
Lemma replace_with_cons (m : cont) (rep : jsstring) (x : N) (s : jsstring) :
  consuming m ->
  replace_with m rep O (x :: s) =
  match m (x :: s) with
  | Some r => rep ++ replace_with m rep O r
  | None => x :: replace_with m rep O s
  end.
Proof.
  intros Hm. cbn [replace_with]. unfold match_len.
  destruct (m (x :: s)) as [r|] eqn:E; [|reflexivity].
  destruct (Hm _ _ E) as (pre & Hne & Hs).
  destruct pre as [|y pre]; [congruence|].
  injection Hs as -> ->.
  replace (List.length (y :: pre ++ r) - List.length r)%nat with (S (List.length pre))
    by (cbn [List.length]; rewrite length_app; lia).
  rewrite (replace_with_skip m rep _ _ (consuming_nil m Hm)).
  rewrite skipn_app, skipn_all, Nat.sub_diag. reflexivity.
Qed.
End ReplaceFacts.

(** ** cleanResponse *)

Section CleanFacts.
Import Regex Direct.

Lemma clean_steps (text : jsstring) :
  Clean.cleanResponse text = Direct.clean text.
Proof.
  destruct text as [|c t]; [reflexivity|].
  unfold Clean.cleanResponse, Direct.clean, remove_all, collapse_blank_lines, replace_all.
  cbn [JsString.truthy negb].
  rewrite (replace_with_ext _ _ [] match_at_search_rag).
  rewrite (replace_with_ext _ _ [] match_at_duckduckgo).
  rewrite (replace_with_ext _ _ [] match_at_standalone).
  rewrite (replace_with_ext _ _ [LF; LF] match_at_blank_lines).
  reflexivity.
Qed.

(** *** Text without tag markup *)

Lemma strip_prefix_app (icase : bool) (p q s r : jsstring) :
  strip_prefix icase (p ++ q) s = Some r ->
  exists r', strip_prefix icase p s = Some r'.
Proof.
  revert s. induction p as [|c p IH]; intros s H; simpl in *.
  - eauto.
  - destruct s as [|x s]; [discriminate|].
    destruct (same_char icase x c); [eauto|discriminate].
Qed.

Lemma tag_start_cons (x : N) (s1 : jsstring) :
  (x =? LT) = true -> tag_name_at s1 <> None -> tag_start (x :: s1) = true.
Proof.
  intros Hx Hn. cbn [tag_start]. rewrite Hx.
  destruct (tag_name_at s1); [reflexivity|congruence].
Qed.

Lemma open_tag_start (nm q s : jsstring) :
  (forall s1, strip_prefix true nm s1 <> None -> tag_name_at s1 <> None) ->
  strip_prefix true (LT :: (nm ++ q)) s <> None -> tag_start s = true.
Proof.
  intros Hname H.
  destruct s as [|x s1]; [now contradiction H|].
  cbn [strip_prefix] in H. unfold same_char in H.
  rewrite (same_char_symbol true x LT) in H by (unfold LT; lia).
  destruct (x =? LT) eqn:Hx; [|now contradiction H].
  apply tag_start_cons; [assumption|].
  apply Hname.
  destruct (strip_prefix true (nm ++ q) s1) as [r|] eqn:E; [|now contradiction H].
  destruct (strip_prefix_app _ _ _ _ _ E) as (r' & ->). discriminate.
Qed.

Lemma tag_name_search_rag (s1 : jsstring) :
  strip_prefix true (str "search_rag") s1 <> None -> tag_name_at s1 <> None.
Proof.
  unfold tag_name_at. destruct (strip_prefix true (str "search_rag") s1); congruence.
Qed.

Lemma tag_name_duckduckgo (s1 : jsstring) :
  strip_prefix true (str "duckduckgo_search") s1 <> None -> tag_name_at s1 <> None.
Proof.
  unfold tag_name_at. destruct (strip_prefix true (str "search_rag") s1); congruence.
Qed.

Lemma search_rag_at_start (s : jsstring) :
  tag_start s = false -> paired_tag_at "search_rag" s = None.
Proof.
  intros Hs. unfold paired_tag_at, pair_at.
  destruct (strip_prefix true (LT :: str ("search_rag" ++ ">")) s) eqn:E; [|reflexivity].
  rewrite (open_tag_start (str "search_rag") (str ">") s tag_name_search_rag) in Hs.
  - discriminate.
  - change (LT :: (str "search_rag" ++ str ">")) with (LT :: str ("search_rag" ++ ">")).
    congruence.
Qed.

Lemma duckduckgo_at_start (s : jsstring) :
  tag_start s = false -> paired_tag_at "duckduckgo_search" s = None.
Proof.
  intros Hs. unfold paired_tag_at, pair_at.
  destruct (strip_prefix true (LT :: str ("duckduckgo_search" ++ ">")) s) eqn:E; [|reflexivity].
  rewrite (open_tag_start (str "duckduckgo_search") (str ">") s tag_name_duckduckgo) in Hs.
  - discriminate.
  - change (LT :: (str "duckduckgo_search" ++ str ">"))
      with (LT :: str ("duckduckgo_search" ++ ">")).
    congruence.
Qed.

Lemma standalone_at_start (s : jsstring) :
  tag_start s = false -> standalone_tag_at s = None.
Proof.
  destruct s as [|x s1]; [reflexivity|].
  cbn [tag_start standalone_tag_at]. destruct (x =? LT); [|reflexivity].
  cbn [andb]. unfold name_then_gt.
  destruct s1 as [|y s2]; [reflexivity|].
  destruct (tag_name_at (y :: s2)); [discriminate|].
  destruct (y =? SLASH); [|reflexivity].
  destruct (tag_name_at s2); [discriminate|reflexivity].
Qed.

Lemma has_tag_markup_suffix (a b : jsstring) :
  has_tag_markup (a ++ b) = false -> tag_start b = false.
Proof.
  induction a as [|x a IH]; intros H.
  - destruct b as [|y b]; [reflexivity|].
    cbn [app has_tag_markup] in H. apply orb_false_elim in H. apply H.
  - cbn [app has_tag_markup] in H. apply orb_false_elim in H. apply IH, H.
Qed.

Lemma remove_all_plain (m : cont) (s : jsstring) :
  (forall b, tag_start b = false -> m b = None) ->
  has_tag_markup s = false ->
  remove_all m s = s.
Proof.
  intros Hm Hs. apply replace_with_none.
  intros a b ->. apply Hm, (has_tag_markup_suffix a b Hs).
Qed.

Lemma clean_plain (text : jsstring) :
  has_tag_markup text = false ->
  Direct.clean text = JsString.trim (collapse_blank_lines text).
Proof.
  intros H. unfold Direct.clean.
  rewrite (remove_all_plain _ text search_rag_at_start H).
  rewrite (remove_all_plain _ text duckduckgo_at_start H).
  rewrite (remove_all_plain _ text standalone_at_start H).
  reflexivity.
Qed.

Lemma collapse_blank_lines_regex (s : jsstring) :
  replace_all false Clean.re_blank_lines [LF; LF] s = collapse_blank_lines s.
Proof. apply replace_with_ext, match_at_blank_lines. Qed.

(** *** Blank lines *)

Lemma after_last_lf_suffix (s r : jsstring) :
  after_last_lf s = Some r -> exists pre, pre <> [] /\ s = pre ++ r.
Proof.
  revert r. induction s as [|x s IH]; intros r H; [discriminate|].
  cbn [after_last_lf] in H.
  destruct (JsString.is_ws x); [|discriminate].
  destruct (after_last_lf s) as [r0|].
  - injection H as <-. destruct (IH r0 eq_refl) as (pre & _ & ->).
    exists (x :: pre). split; [discriminate|reflexivity].
  - destruct (x =? LF); [|discriminate]. injection H as <-.
    exists [x]. split; [discriminate|reflexivity].
Qed.

Lemma after_last_lf_rest (s r : jsstring) :
  after_last_lf s = Some r -> after_last_lf r = None.
Proof.
  revert r. induction s as [|x s IH]; intros r H; [discriminate|].
  cbn [after_last_lf] in H.
  destruct (JsString.is_ws x); [|discriminate].
  destruct (after_last_lf s) as [r0|] eqn:E.
  - injection H as <-. apply IH. reflexivity.
  - destruct (x =? LF); [|discriminate]. injection H as <-. exact E.
Qed.

Lemma blank_lines_consuming : consuming blank_lines_at.
Proof.
  intros s r H. destruct s as [|x s]; [discriminate|].
  cbn [blank_lines_at] in H.
  destruct ((x =? LF) && (2 <=? count_lf (ws_run s))%nat); [|discriminate].
  destruct (after_last_lf_suffix s r H) as (pre & _ & ->).
  exists (x :: pre). split; [discriminate|reflexivity].
Qed.

Lemma lead_lf_le_count (s : jsstring) : (lead_lf s <= count_lf (ws_run s))%nat.
Proof.
  induction s as [|x s IH]; [apply Nat.le_refl|].
  cbn [lead_lf ws_run]. destruct (N.eqb_spec x LF) as [->|Hx]; [|lia].
  rewrite is_ws_LF, count_lf_cons. simpl. lia.
Qed.

Lemma blank_lines_at_none_lf (s : jsstring) :
  blank_lines_at (LF :: s) = None -> (count_lf (ws_run s) < 2)%nat.
Proof.
  cbn [blank_lines_at]. rewrite N.eqb_refl. cbn [andb].
  destruct (Nat.leb_spec 2 (count_lf (ws_run s))) as [H2|H2]; [|intros; lia].
  intros E. apply after_last_lf_none in E. lia.
Qed.

Lemma blank_lines_at_few (s : jsstring) :
  (count_lf (ws_run s) < 2)%nat -> blank_lines_at s = None.
Proof.
  destruct s as [|x s]; [reflexivity|].
  cbn [ws_run blank_lines_at].
  destruct (N.eqb_spec x LF) as [->|Hx]; [|reflexivity].
  rewrite is_ws_LF, count_lf_cons, !N.eqb_refl. cbn [andb]. intros H.
  destruct (Nat.leb_spec 2 (count_lf (ws_run s))); [lia|reflexivity].
Qed.

Lemma blank_lines_at_not_lf (s : jsstring) :
  lead_lf s = 0%nat -> blank_lines_at s = None.
Proof.
  destruct s as [|x s]; [reflexivity|].
  cbn [lead_lf blank_lines_at]. destruct (x =? LF); [discriminate|reflexivity].
Qed.

Lemma after_last_lf_none_lead (s : jsstring) :
  after_last_lf s = None -> lead_lf s = 0%nat.
Proof.
  intros H. apply after_last_lf_none in H.
  pose proof (lead_lf_le_count s). lia.
Qed.

Lemma collapse_cons (x : N) (s : jsstring) :
  collapse_blank_lines (x :: s) =
  match blank_lines_at (x :: s) with
  | Some r => LF :: LF :: collapse_blank_lines r
  | None => x :: collapse_blank_lines s
  end.
Proof.
  unfold collapse_blank_lines.
  rewrite (replace_with_cons _ _ _ _ blank_lines_consuming).
  destruct (blank_lines_at (x :: s)); reflexivity.
Qed.

(** After the collapse no line feed is followed by two more, and where no
    run is collapsed at the head the line feeds at the head are those of
    the input. *)
Lemma collapse_triple_free_upto (n : nat) :
  forall s, (List.length s <= n)%nat ->
    triple_free (collapse_blank_lines s) = true /\
    (blank_lines_at s = None ->
     (lead_lf (collapse_blank_lines s) <= lead_lf s)%nat).
Proof.
  induction n as [|n IH]; intros s Hlen.
  - destruct s; [|simpl in Hlen; lia]. split; [reflexivity|intros _; apply Nat.le_refl].
  - destruct s as [|x s]; [split; [reflexivity|intros _; apply Nat.le_refl]|].
    simpl in Hlen. rewrite collapse_cons.
    destruct (blank_lines_at (x :: s)) as [r|] eqn:E.
    + split; [|discriminate].
      destruct (blank_lines_consuming _ _ E) as (pre & Hne & Hs).
      assert (List.length r <= n)%nat as Hr.
      { apply (f_equal (@List.length N)) in Hs. rewrite length_app in Hs. simpl in Hs.
        destruct pre; [congruence|simpl in Hs; lia]. }
      destruct (IH r Hr) as [Htf Hlead].
      assert (lead_lf r = 0%nat) as H0.
      { apply after_last_lf_none_lead. cbn [blank_lines_at] in E.
        destruct ((x =? LF) && _); [|discriminate].
        apply (after_last_lf_rest s r E). }
      specialize (Hlead (blank_lines_at_not_lf r H0)).
      assert (lead_lf (collapse_blank_lines r) = 0%nat) as Hc by lia.
      cbn [triple_free lead_lf]. rewrite N.eqb_refl, Hc, Htf. reflexivity.
    + assert (List.length s <= n)%nat as Hs by lia.
      destruct (IH s Hs) as [Htf Hlead].
      destruct (N.eqb_spec x LF) as [->|Hx].
      * pose proof (blank_lines_at_none_lf s E) as Hfew.
        specialize (Hlead (blank_lines_at_few s Hfew)).
        pose proof (lead_lf_le_count s) as Hle.
        split.
        -- cbn [triple_free]. rewrite Htf.
           destruct (Nat.leb_spec 2 (lead_lf (collapse_blank_lines s))); [lia|].
           rewrite andb_false_r. reflexivity.
        -- intros _. cbn [lead_lf]. rewrite N.eqb_refl. lia.
      * split.
        -- cbn [triple_free]. apply N.eqb_neq in Hx. rewrite Hx, Htf. reflexivity.
        -- intros _. cbn [lead_lf]. apply N.eqb_neq in Hx. rewrite Hx. lia.
Qed.

Lemma collapse_triple_free (s : jsstring) :
  triple_free (collapse_blank_lines s) = true.
Proof. apply (collapse_triple_free_upto (List.length s) s (Nat.le_refl _)). Qed.

Lemma triple_free_no_triple (s pre post : jsstring) :
  triple_free s = true -> s <> pre ++ [LF; LF; LF] ++ post.
Proof.
  revert pre. induction s as [|x s IH]; intros pre H E.
  - destruct pre; discriminate.
  - cbn [triple_free] in H. apply andb_prop in H. destruct H as [Hx Hs].
    destruct pre as [|y pre].
    + injection E as -> ->. discriminate.
    + injection E as _ ->. exact (IH pre Hs eq_refl).
Qed.

Lemma no_triple_substring (a t b pre post : jsstring) :
  (forall pre' post', a ++ t ++ b <> pre' ++ [LF; LF; LF] ++ post') ->
  t <> pre ++ [LF; LF; LF] ++ post.
Proof.
  intros H ->. apply (H (a ++ pre) (post ++ b)).
  rewrite <- !app_assoc. reflexivity.
Qed.

Lemma trimStart_suffix (s : jsstring) : exists a, s = a ++ JsString.trimStart s.
Proof.
  induction s as [|x s [a IH]]; [exists []; reflexivity|].
  cbn [JsString.trimStart]. destruct (JsString.is_ws x).
  - exists (x :: a). simpl. congruence.
  - exists []. reflexivity.
Qed.

Lemma trim_substring (s : jsstring) : exists a b, s = a ++ JsString.trim s ++ b.
Proof.
  destruct (trimStart_suffix s) as [a Ha].
  destruct (trimStart_suffix (rev (JsString.trimStart s))) as [b Hb].
  exists a, (rev b). unfold JsString.trim, JsString.trimEnd.
  rewrite <- rev_app_distr, <- Hb, rev_involutive. exact Ha.
Qed.

Lemma trim_collapse_no_triple (s pre post : jsstring) :
  JsString.trim (collapse_blank_lines s) <> pre ++ [LF; LF; LF] ++ post.
Proof.
  destruct (trim_substring (collapse_blank_lines s)) as (a & b & E).
  apply (no_triple_substring a _ b). rewrite <- E.
  intros pre' post'. apply triple_free_no_triple, collapse_triple_free.
Qed.

Lemma count_lf_app (a b : jsstring) :
  count_lf (a ++ b) = (count_lf a + count_lf b)%nat.
Proof. unfold count_lf. rewrite filter_app, length_app. reflexivity. Qed.

Lemma count_lf_ws_run (s : jsstring) : (count_lf (ws_run s) <= count_lf s)%nat.
Proof.
  induction s as [|x s IH]; [apply Nat.le_refl|].
  cbn [ws_run]. destruct (JsString.is_ws x); rewrite ?count_lf_cons; [lia|].
  unfold count_lf at 1. simpl. lia.
Qed.

Lemma blank_lines_at_count (s : jsstring) :
  blank_lines_at s <> None -> (3 <= count_lf s)%nat.
Proof.
  destruct s as [|x s]; [intros H; now contradiction H|].
  cbn [blank_lines_at]. rewrite count_lf_cons.
  destruct (x =? LF); [|intros H; now contradiction H].
  destruct (Nat.leb_spec 2 (count_lf (ws_run s))) as [H2|H2];
    [|intros H; now contradiction H].
  intros _. pose proof (count_lf_ws_run s). lia.
Qed.

(** A text with fewer than three line feeds has no blank-line run. *)
Lemma collapse_few_lf (s : jsstring) :
  (count_lf s < 3)%nat -> collapse_blank_lines s = s.
Proof.
  intros H. apply replace_with_none. intros a b ->.
  destruct (blank_lines_at b) eqn:E; [|reflexivity].
  assert (3 <= count_lf b)%nat as H3 by (apply blank_lines_at_count; congruence).
  rewrite count_lf_app in H. lia.
Qed.

(** *** A paired tag in plain surroundings *)

Lemma replace_with_keep (m : cont) (rep a rest : jsstring) :
  (forall a1 x a2, a = a1 ++ x :: a2 -> m (x :: a2 ++ rest) = None) ->
  replace_with m rep O (a ++ rest) = a ++ replace_with m rep O rest.
Proof.
  induction a as [|x a IH]; intros H; [reflexivity|].
  cbn [app replace_with]. unfold match_len.
  rewrite (H [] x a eq_refl). f_equal. apply IH.
  intros a1 y a2 ->. apply (H (x :: a1)). reflexivity.
Qed.

Lemma same_char_refl (icase : bool) (c : N) : same_char icase c c = true.
Proof. apply N.eqb_refl. Qed.

Lemma strip_prefix_not_lt (p : jsstring) (x : N) (s : jsstring) :
  x <> LT -> strip_prefix true (LT :: p) (x :: s) = None.
Proof.
  intros Hx. cbn [strip_prefix]. unfold same_char.
  rewrite (same_char_symbol true x LT) by (unfold LT; lia).
  apply N.eqb_neq in Hx. rewrite Hx. reflexivity.
Qed.

Lemma spells_app (tag o s : jsstring) :
  spells tag o -> strip_prefix true tag (o ++ s) = Some s.
Proof.
  unfold spells. revert o. induction tag as [|c tag IH]; intros o H.
  - injection H as ->. reflexivity.
  - destruct o as [|x o]; [discriminate|]. cbn [app strip_prefix] in *.
    destruct (same_char true x c); [apply IH, H|discriminate].
Qed.

Lemma spells_lt (tag o : jsstring) :
  spells (LT :: tag) o -> exists o', o = LT :: o' /\ spells tag o'.
Proof.
  unfold spells. destruct o as [|x o]; [discriminate|].
  cbn [strip_prefix]. unfold same_char.
  rewrite (same_char_symbol true x LT) by (unfold LT; lia).
  destruct (N.eqb_spec x LT) as [->|]; [|discriminate].
  intros H. exists o. split; [reflexivity|exact H].
Qed.

Lemma spells_no_lt (tag o : jsstring) :
  spells tag o -> ~ In LT tag -> ~ In LT o.
Proof.
  unfold spells. revert o. induction tag as [|c tag IH]; intros o H Ht.
  - injection H as ->. intros [].
  - destruct o as [|x o]; [discriminate|]. cbn [strip_prefix] in H.
    destruct (same_char true x c) eqn:E; [|discriminate].
    intros [->|Hin].
    + unfold same_char in E. rewrite N.eqb_sym in E.
      rewrite (same_char_symbol true c LT) in E by (unfold LT; lia).
      apply N.eqb_eq in E. apply Ht. left. exact E.
    + apply (IH o H); [|exact Hin]. intros Hin'. apply Ht. right. exact Hin'.
Qed.

Lemma find_after_plain (c body tail b : jsstring) :
  ~ In LT body ->
  strip_prefix true (LT :: c) (tail ++ b) = Some b ->
  find_after true (LT :: c) (body ++ tail ++ b) = Some b.
Proof.
  intros Hb Ht. induction body as [|y body IH].
  - cbn [app]. destruct (tail ++ b); cbn [find_after]; rewrite Ht; reflexivity.
  - cbn [app find_after].
    rewrite strip_prefix_not_lt by (intros ->; apply Hb; left; reflexivity).
    apply IH. intros Hin. apply Hb. right. exact Hin.
Qed.

Lemma strip_prefix_suffix (icase : bool) (p s r : jsstring) :
  strip_prefix icase p s = Some r ->
  exists pre, List.length pre = List.length p /\ s = pre ++ r.
Proof.
  revert s. induction p as [|c p IH]; intros s H.
  - injection H as <-. exists []. split; reflexivity.
  - destruct s as [|x s]; [discriminate|]. cbn [strip_prefix] in H.
    destruct (same_char icase x c); [|discriminate].
    destruct (IH s H) as (pre & Hl & ->).
    exists (x :: pre). split; [simpl; congruence|reflexivity].
Qed.

Lemma find_after_suffix (icase : bool) (p s r : jsstring) :
  find_after icase p s = Some r -> exists pre, s = pre ++ r.
Proof.
  induction s as [|x s IH]; cbn [find_after]; intros H.
  - destruct (strip_prefix icase p []) as [r0|] eqn:E; [|discriminate].
    injection H as <-. destruct (strip_prefix_suffix _ _ _ _ E) as (pre & _ & ->). eauto.
  - destruct (strip_prefix icase p (x :: s)) as [r0|] eqn:E.
    + injection H as <-. destruct (strip_prefix_suffix _ _ _ _ E) as (pre & _ & ->). eauto.
    + destruct (IH H) as (pre & ->). exists (x :: pre). reflexivity.
Qed.

Section Pair.
Variables op cl : jsstring.

Lemma pair_consuming : consuming (pair_at op cl).
Proof.
  intros s r H. unfold pair_at in H.
  destruct (strip_prefix true (LT :: op) s) as [body|] eqn:E; [|discriminate].
  destruct (strip_prefix_suffix _ _ _ _ E) as (pre & Hl & ->).
  destruct (find_after_suffix _ _ _ _ H) as (mid & ->).
  exists (pre ++ mid). split; [|now rewrite app_assoc].
  destruct pre; [discriminate Hl|discriminate].
Qed.

Lemma pair_keep (a rest : jsstring) :
  ~ In LT a ->
  remove_all (pair_at op cl) (a ++ rest) = a ++ remove_all (pair_at op cl) rest.
Proof.
  intros Ha. apply replace_with_keep.
  intros a1 x a2 ->. unfold pair_at.
  rewrite strip_prefix_not_lt; [reflexivity|].
  intros ->. apply Ha, in_elt.
Qed.

(** A tag that the matcher does not take is passed over. *)
Lemma pair_pass (t rest : jsstring) :
  strip_prefix true (LT :: op) ((LT :: t) ++ rest) = None ->
  ~ In LT t ->
  remove_all (pair_at op cl) ((LT :: t) ++ rest)
  = (LT :: t) ++ remove_all (pair_at op cl) rest.
Proof.
  intros Hn Ht. unfold remove_all. cbn [app] in *.
  rewrite (replace_with_cons _ _ _ _ pair_consuming).
  unfold pair_at at 1. rewrite Hn. f_equal. apply (pair_keep t rest Ht).
Qed.

(** A pair of tags spelled in any case around a body without [<] is
    taken whole. *)
Lemma pair_remove (o body c b : jsstring) :
  spells (LT :: op) o -> spells (LT :: cl) c -> ~ In LT body ->
  remove_all (pair_at op cl) (o ++ body ++ c ++ b) = remove_all (pair_at op cl) b.
Proof.
  intros Ho Hc Hb. unfold remove_all.
  destruct (spells_lt _ _ Ho) as (o' & Eo & _).
  assert (pair_at op cl (o ++ body ++ c ++ b) = Some b) as Hm.
  { unfold pair_at. rewrite (spells_app _ _ _ Ho).
    apply find_after_plain; [exact Hb|]. apply spells_app, Hc. }
  rewrite Eo in *. cbn [app] in *.
  rewrite (replace_with_cons _ _ _ _ pair_consuming), Hm. reflexivity.
Qed.
End Pair.

Lemma no_lt_duckduckgo_tail : ~ In LT (str "duckduckgo_search>").
Proof. vm_compute. intuition discriminate. Qed.

Lemma no_lt_duckduckgo_close_tail : ~ In LT (str "/duckduckgo_search>").
Proof. vm_compute. intuition discriminate. Qed.

(** The search_rag matcher does not take a tag whose second character is
    not an [s]. *)
Lemma search_rag_other_tag (c : N) (tag o' rest : jsstring) :
  canonicalize true c <> canonicalize true 115 ->
  spells (c :: tag) o' ->
  strip_prefix true (LT :: str "search_rag>") ((LT :: o') ++ rest) = None.
Proof.
  intros Hc Ho. unfold spells in Ho.
  destruct o' as [|y o']; [discriminate|].
  cbn [strip_prefix] in Ho. destruct (same_char true y c) eqn:E; [|discriminate].
  cbn [app strip_prefix]. rewrite same_char_refl.
  change (str "search_rag>") with (115 :: str "earch_rag>"). cbn [strip_prefix].
  unfold same_char in *. apply N.eqb_eq in E.
  destruct (N.eqb_spec (canonicalize true y) (canonicalize true 115)); [congruence|reflexivity].
Qed.

Lemma clean_search_rag_pair (a o body c b : jsstring) :
  ~ In LT a -> ~ In LT body ->
  spells (open_tag "search_rag") o -> spells (close_tag "search_rag") c ->
  Direct.clean (a ++ o ++ body ++ c ++ b) = Direct.clean (a ++ b).
Proof.
  intros Ha Hb Ho Hc. unfold Direct.clean, paired_tag_at. do 4 f_equal.
  set (op := str ("search_rag" ++ ">")). set (cl := str ("/" ++ "search_rag" ++ ">")).
  rewrite !(pair_keep op cl a) by assumption.
  rewrite (pair_remove op cl o body c b Ho Hc Hb). reflexivity.
Qed.

Lemma clean_duckduckgo_pair (a o body c b : jsstring) :
  ~ In LT a -> ~ In LT body ->
  spells (open_tag "duckduckgo_search") o -> spells (close_tag "duckduckgo_search") c ->
  Direct.clean (a ++ o ++ body ++ c ++ b) = Direct.clean (a ++ b).
Proof.
  intros Ha Hb Ho Hc. unfold Direct.clean, paired_tag_at. do 3 f_equal.
  set (op := str ("search_rag" ++ ">")). set (cl := str ("/" ++ "search_rag" ++ ">")).
  set (op' := str ("duckduckgo_search" ++ ">")).
  set (cl' := str ("/" ++ "duckduckgo_search" ++ ">")).
  destruct (spells_lt _ _ Ho) as (o' & Eo & Ho').
  destruct (spells_lt _ _ Hc) as (c' & Ec & Hc').
  pose proof (spells_no_lt _ _ Ho' no_lt_duckduckgo_tail) as Hno.
  pose proof (spells_no_lt _ _ Hc' no_lt_duckduckgo_close_tail) as Hnc.
  rewrite !(pair_keep op cl a) by assumption.
  assert (remove_all (pair_at op cl) (o ++ body ++ c ++ b)
          = o ++ body ++ c ++ remove_all (pair_at op cl) b) as E1.
  { rewrite Eo, Ec.
    rewrite (pair_pass op cl o');
      [|apply (search_rag_other_tag 100 _ _ _) with (2 := Ho'); discriminate|exact Hno].
    f_equal.
    rewrite (pair_keep op cl body) by assumption. f_equal.
    rewrite (pair_pass op cl c'); [reflexivity| |exact Hnc].
    apply (search_rag_other_tag 47 _ _ _) with (2 := Hc'). discriminate. }
  rewrite E1.
  rewrite !(pair_keep op' cl' a) by assumption.
  rewrite (pair_remove op' cl' o body c _ Ho Hc Hb). reflexivity.
Qed.
End CleanFacts.

(** ** Claims on cleanResponse *)

(** C1.  For every input, cleanResponse is the five steps in order: remove
    each paired search_rag tag (opening tag to the first closing tag after
    it, letters in either case, any characters between, line feeds among
    them), remove each paired duckduckgo_search tag, remove each standalone
    opening or closing tag up to its [>], collapse the blank-line runs, trim.
    A paired tag of either name, spelled in any case, whose body and whose
    left context hold no [<], vanishes whatever follows.  The example of the
    specification yields "beforeafter". *)
Theorem cleanResponse_steps :
  (forall text, Clean.cleanResponse text = Direct.clean text) /\
  (forall name a o body c b,
      name = "search_rag"%string \/ name = "duckduckgo_search"%string ->
      ~ In Regex.LT a -> ~ In Regex.LT body ->
      Direct.spells (Direct.open_tag name) o ->
      Direct.spells (Direct.close_tag name) c ->
      Clean.cleanResponse (a ++ o ++ body ++ c ++ b) = Clean.cleanResponse (a ++ b)) /\
  Clean.cleanResponse Direct.example_text = str "beforeafter".
Proof.
  split; [exact clean_steps|]. split.
  - intros name a o body c b [-> | ->] Ha Hb Ho Hc; rewrite !clean_steps.
    + exact (clean_search_rag_pair a o body c b Ha Hb Ho Hc).
    + exact (clean_duckduckgo_pair a o body c b Ha Hb Ho Hc).
  - vm_compute. reflexivity.
Qed.

Lemma cleanResponse_steps_witness :
  Clean.cleanResponse
    (str "before" ++ str "<Search_RAG>"
       ++ (str "anything here" ++ [Regex.LF] ++ str "multiline")
       ++ str "</search_rag>" ++ str "after")
  = Clean.cleanResponse (str "before" ++ str "after").
Proof.
  apply (proj1 (proj2 cleanResponse_steps) "search_rag"%string).
  - left. reflexivity.
  - vm_compute. intuition discriminate.
  - vm_compute. intuition discriminate.
  - vm_compute. reflexivity.
  - vm_compute. reflexivity.
Defined.

(** C6.  On a text in which no opening or closing tag of the two names
    begins, cleanResponse only collapses the blank-line runs and trims, and
    only trims when the text has fewer than three line feeds; on every text,
    its result nowhere holds three line feeds in a row. *)
Theorem cleanResponse_plain_text (text : jsstring) :
  (Direct.has_tag_markup text = false ->
   Clean.cleanResponse text
   = JsString.trim (Regex.replace_all false Clean.re_blank_lines [Regex.LF; Regex.LF] text)) /\
  (Direct.has_tag_markup text = false -> (Direct.count_lf text < 3)%nat ->
   Clean.cleanResponse text = JsString.trim text) /\
  (forall pre post,
      Clean.cleanResponse text <> pre ++ [Regex.LF; Regex.LF; Regex.LF] ++ post).
Proof.
  split; [|split].
  - intros H. rewrite clean_steps, collapse_blank_lines_regex. apply clean_plain, H.
  - intros H Hfew. rewrite clean_steps, (clean_plain text H), (collapse_few_lf text Hfew).
    reflexivity.
  - intros pre post. rewrite clean_steps. unfold Direct.clean.
    apply trim_collapse_no_triple.
Qed.

Lemma cleanResponse_plain_text_witness :
  Clean.cleanResponse Direct.example_plain
  = JsString.trim
      (Regex.replace_all false Clean.re_blank_lines [Regex.LF; Regex.LF] Direct.example_plain)
  /\ Clean.cleanResponse (str " a < b ") = JsString.trim (str " a < b ").
Proof.
  split.
  - apply (proj1 (cleanResponse_plain_text Direct.example_plain)).
    vm_compute. reflexivity.
  - apply (proj1 (proj2 (cleanResponse_plain_text (str " a < b ")))).
    + vm_compute. reflexivity.
    + vm_compute. lia.
Defined.

(** ** Claims on the components *)

Section ComponentFacts.
Import Js.

(** C2.  In AdditionalInfo a response whose [info] is the empty string is
    handled exactly as one without [info]: the error is set to the
    empty-response message, the stored result is not touched (it is the
    [null] of the start of the submission), and loading is cleared. *)
Theorem empty_info_is_empty_response
        (st : AdditionalInfo.state)
        (su : option bool) (q m : option jsstring) :
  let empty := AdditionalInfo.Build_InfoData su q (Some []) m in
  let lacking := AdditionalInfo.Build_InfoData su q None m in
  let after := run (AdditionalInfo.handleSubmit_settled (Resolved (Some empty))) st in
  after = run (AdditionalInfo.handleSubmit_settled (Resolved (Some lacking))) st /\
  AdditionalInfo.error after
    = Some (str "Received empty response from server. Please try again.") /\
  AdditionalInfo.result after = AdditionalInfo.result st /\
  AdditionalInfo.result
    (run (AdditionalInfo.handleSubmit_settled (Resolved (Some empty)))
         (AdditionalInfo.handleSubmit_start st)) = None.
Proof. repeat split. Qed.

(** C3, counterexample.  On a request that got no response FinalResponse
    shows the message of the transport, not the no-response message. *)
Lemma final_response_network_error :
  FinalResponse.errorMessage network_error = str "Network Error" /\
  FinalResponse.errorMessage network_error
    <> str "No response from server. Please check if the API server is running.".
Proof. split; [reflexivity|discriminate]. Qed.

(** C3, amended.  AdditionalInfo derives the message by the chain: body
    [detail], else body [message], else the status line; without a response
    but with a request made, the no-response message verbatim; else the
    error's own message, else its default.  FinalResponse derives it by the
    shorter chain: body [detail], else the error's own message, else its
    default; so without a response it shows the error's own message (or the
    default), whether a request was made or not, and it never reads the body
    [message] or the status line. *)
Theorem error_message_chains (err : Error) :
  (forall r,
      response err = Some r ->
      AdditionalInfo.errorMessage err =
      or_lit (or_else (match data r with Some b => detail b | None => None end)
                      (match data r with Some b => message b | None => None end))
             (str "Server error: " ++ JsString.of_N (status r) ++ str " " ++ statusText r)) /\
  (response err = None -> request err = true ->
   AdditionalInfo.errorMessage err
   = str "No response from server. Please check if the API server is running.") /\
  (response err = None -> request err = false ->
   AdditionalInfo.errorMessage err
   = or_lit (err_message err) (str "Failed to gather information")) /\
  (truthy (response_detail err) = true ->
   Some (FinalResponse.errorMessage err) = response_detail err) /\
  (truthy (response_detail err) = false ->
   FinalResponse.errorMessage err
   = or_lit (err_message err) (str "Failed to generate response")) /\
  (response err = None ->
   FinalResponse.errorMessage err
   = or_lit (err_message err) (str "Failed to generate response")).
Proof.
  unfold AdditionalInfo.errorMessage, FinalResponse.errorMessage, response_detail.
  repeat split.
  - intros r ->. reflexivity.
  - intros -> ->. reflexivity.
  - intros -> ->. reflexivity.
  - unfold or_else, or_lit, truthy.
    destruct (response err) as [r|]; [|discriminate].
    destruct (data r) as [b|]; [|discriminate].
    destruct (detail b) as [d|]; [|discriminate].
    intros H. cbn [truthy]. rewrite !H. reflexivity.
  - unfold or_else. intros ->. reflexivity.
  - intros ->. reflexivity.
Qed.

Lemma error_message_chains_witness :
  AdditionalInfo.errorMessage network_error
  = str "No response from server. Please check if the API server is running." /\
  FinalResponse.errorMessage network_error
  = or_lit (err_message network_error) (str "Failed to generate response").
Proof.
  split.
  - apply (proj1 (proj2 (error_message_chains network_error))); reflexivity.
  - apply (proj2 (proj2 (proj2 (proj2 (proj2 (error_message_chains network_error)))))).
    reflexivity.
Defined.

(** *** ChatInput *)

Lemma trimStart_all_ws (s : jsstring) :
  forallb JsString.is_ws s = true -> JsString.trimStart s = [].
Proof.
  induction s as [|x s IH]; [reflexivity|].
  cbn [forallb JsString.trimStart]. intros H. apply andb_prop in H.
  destruct H as [-> Hs]. apply IH, Hs.
Qed.

Lemma trim_all_ws (s : jsstring) :
  forallb JsString.is_ws s = true -> JsString.trim s = [].
Proof.
  intros H. unfold JsString.trim. rewrite (trimStart_all_ws s H). reflexivity.
Qed.

Lemma truthy_nonempty (s : jsstring) : JsString.truthy s = true <-> s <> [].
Proof. destruct s; simpl; split; congruence. Qed.

(** C4.  A ChatInput submission (the form's submit, or Enter without Shift)
    calls onSendMessage exactly when the trimmed message is not empty; the
    call then carries the trimmed message and the field is cleared;
    otherwise, as for a message of white space only, nothing is called and
    the field is left as it is. *)
Theorem chat_submit (st : ChatInput.state) :
  let trimmed := JsString.trim (ChatInput.message st) in
  (snd (ChatInput.handleSubmit st) <> [] <-> trimmed <> []) /\
  (trimmed <> [] ->
   ChatInput.handleSubmit st = (ChatInput.Build_state [], [trimmed])) /\
  (trimmed = [] -> ChatInput.handleSubmit st = (st, [])) /\
  (forallb JsString.is_ws (ChatInput.message st) = true ->
   ChatInput.handleSubmit st = (st, [])) /\
  ChatInput.handleKeyDown (str "Enter") false st = ChatInput.handleSubmit st /\
  ChatInput.handleSubmit (ChatInput.Build_state (str "  hello  "))
  = (ChatInput.Build_state [], [str "hello"]).
Proof.
  cbn zeta. unfold ChatInput.handleSubmit.
  assert (forall t, ChatInput.message st = t -> JsString.trim t = [] ->
                    (if JsString.truthy (JsString.trim (ChatInput.message st))
                     then (ChatInput.setMessage [] st, [JsString.trim (ChatInput.message st)])
                     else (st, [])) = (st, [])) as Hempty.
  { intros t -> E. rewrite E. reflexivity. }
  repeat split.
  - intros H E. rewrite E in H. apply H. reflexivity.
  - intros H. destruct (JsString.trim (ChatInput.message st)); [congruence|discriminate].
  - intros H. apply truthy_nonempty in H. rewrite H. reflexivity.
  - intros E. apply (Hempty _ eq_refl E).
  - intros H. apply (Hempty _ eq_refl (trim_all_ws _ H)).
Qed.

Lemma chat_submit_witness :
  ChatInput.handleSubmit (ChatInput.Build_state (str " hi "))
  = (ChatInput.Build_state [], [JsString.trim (str " hi ")]) /\
  ChatInput.handleSubmit (ChatInput.Build_state (str "   "))
  = (ChatInput.Build_state (str "   "), []).
Proof.
  split.
  - apply (proj1 (proj2 (chat_submit (ChatInput.Build_state (str " hi "))))).
    vm_compute. discriminate.
  - apply (proj1 (proj2 (proj2 (proj2 (chat_submit (ChatInput.Build_state (str "   "))))))).
    vm_compute. reflexivity.
Defined.

Lemma dispatch_disabled (ev : ChatInput.event) (st : ChatInput.state) :
  ChatInput.dispatch true ev st = (st, []).
Proof.
  destruct ev; cbn [ChatInput.dispatch ChatInput.textarea_disabled]; [reflexivity| |reflexivity].
  unfold ChatInput.button_disabled. rewrite orb_true_r. reflexivity.
Qed.

(** C7.  While [disabled] is set, no event of the rendered ChatInput (a
    click on the submit button, a key in the text area, Enter without Shift
    among them, typing), and no run of such events, calls onSendMessage or
    changes the field, whatever the message is. *)
Theorem chat_disabled_inert :
  (forall ev st, ChatInput.dispatch true ev st = (st, [])) /\
  (forall evs st, ChatInput.dispatch_all true evs st = (st, [])).
Proof.
  split; [exact dispatch_disabled|].
  induction evs as [|ev evs IH]; intros st; [reflexivity|].
  cbn [ChatInput.dispatch_all]. rewrite dispatch_disabled, IH. reflexivity.
Qed.

(** [handleSubmit] itself does not read [disabled]: it is the rendered
    controls that keep events away. *)
Lemma chat_enabled_sends :
  ChatInput.dispatch false ChatInput.Click (ChatInput.Build_state (str "hello"))
  = (ChatInput.Build_state [], [str "hello"]).
Proof. reflexivity. Qed.

(** *** Requests *)

(** C5.  The request of a FinalResponse submission that passes validation
    goes out without a [user_query] member when the original-query field is
    the empty string, and with the field's value when it is not; an empty
    string is never sent for it. *)
Theorem final_response_user_query (st : FinalResponse.state) (req : object) :
  request_of (FinalResponse.handleSubmit st) = Some req ->
  (FinalResponse.userQuery st = [] ->
   get (wire_body req) "user_query" = None) /\
  (FinalResponse.userQuery st <> [] ->
   get (wire_body req) "user_query" = Some (VString (FinalResponse.userQuery st))) /\
  get (wire_body req) "user_query" <> Some (VString []) /\
  get req "user_query"
  = Some (if JsString.truthy (FinalResponse.userQuery st)
          then VString (FinalResponse.userQuery st) else VUndefined).
Proof.
  unfold FinalResponse.handleSubmit.
  destruct (negb (JsString.truthy (JsString.trim (FinalResponse.content st))));
    [discriminate|].
  cbn [request_of]. intros H. injection H as <-.
  unfold FinalResponse.payload.
  destruct (FinalResponse.userQuery st) as [|c u]; cbn.
  - repeat split; try congruence; discriminate.
  - repeat split; try congruence; discriminate.
Qed.

Lemma final_response_user_query_witness :
  get (wire_body (FinalResponse.payload Samples.final_typed)) "user_query" = None /\
  get (wire_body (FinalResponse.payload Samples.final_typed_query)) "user_query"
  = Some (VString (str "Tell me about the Las Vegas Strip")).
Proof.
  split.
  - apply (proj1 (final_response_user_query Samples.final_typed _ eq_refl)).
    reflexivity.
  - apply (proj1 (proj2 (final_response_user_query Samples.final_typed_query _ eq_refl))).
    vm_compute. discriminate.
Defined.

(** C10.  A submission that passes validation sends the field as typed, not
    the trimmed text the validation looks at: AdditionalInfo sends [query]
    and FinalResponse sends [content] with their surrounding white space. *)
Theorem request_carries_raw_field :
  (forall st : AdditionalInfo.state,
      JsString.trim (AdditionalInfo.query st) <> [] ->
      exists req,
        request_of (AdditionalInfo.handleSubmit st) = Some req /\
        get (wire_body req) "query" = Some (VString (AdditionalInfo.query st))) /\
  (forall st : FinalResponse.state,
      JsString.trim (FinalResponse.content st) <> [] ->
      exists req,
        request_of (FinalResponse.handleSubmit st) = Some req /\
        get (wire_body req) "content" = Some (VString (FinalResponse.content st))) /\
  (exists st : AdditionalInfo.state,
      request_of (AdditionalInfo.handleSubmit st)
      = Some [("query"%string, VString (str "  San Diego Zoo  "))] /\
      JsString.trim (AdditionalInfo.query st) = str "San Diego Zoo").
Proof.
  repeat split.
  - intros st H. apply truthy_nonempty in H.
    unfold AdditionalInfo.handleSubmit. rewrite H. cbn [negb request_of].
    eexists. split; reflexivity.
  - intros st H. apply truthy_nonempty in H.
    unfold FinalResponse.handleSubmit. rewrite H. cbn [negb request_of].
    eexists. split; [reflexivity|].
    unfold FinalResponse.payload. reflexivity.
  - exists Samples.info_typed. split; reflexivity.
Qed.

Lemma request_carries_raw_field_witness :
  (exists req,
      request_of (AdditionalInfo.handleSubmit Samples.info_typed) = Some req /\
      get (wire_body req) "query" = Some (VString (str "  San Diego Zoo  "))) /\
  (exists req,
      request_of (FinalResponse.handleSubmit Samples.final_typed) = Some req /\
      get (wire_body req) "content" = Some (VString (str " The Strip is 4.2 miles long. "))).
Proof.
  split.
  - apply (proj1 request_carries_raw_field Samples.info_typed).
    vm_compute. discriminate.
  - apply (proj1 (proj2 request_carries_raw_field) Samples.final_typed).
    vm_compute. discriminate.
Defined.

(** *** Loading *)

(** C8.  However the request of HealthCheck, AdditionalInfo or
    FinalResponse settles (data, no data, an error with or without a
    response, an exception), and whatever the state at that moment, the
    handler ends with loading cleared. *)
Theorem loading_cleared_on_every_path :
  (forall st, settles_ready HealthCheck.loading (HealthCheck.checkHealth st)) /\
  (forall st, settles_ready AdditionalInfo.loading (AdditionalInfo.handleSubmit st)) /\
  (forall st, settles_ready FinalResponse.loading (FinalResponse.handleSubmit st)) /\
  (forall o st, HealthCheck.loading (run (HealthCheck.checkHealth_settled o) st) = false) /\
  (forall o st, AdditionalInfo.loading (run (AdditionalInfo.handleSubmit_settled o) st) = false) /\
  (forall o st, FinalResponse.loading (run (FinalResponse.handleSubmit_settled o) st) = false).
Proof.
  assert (forall o st, HealthCheck.loading (run (HealthCheck.checkHealth_settled o) st) = false)
    as HC by (intros [d|e] st; reflexivity).
  assert (forall o st,
             AdditionalInfo.loading (run (AdditionalInfo.handleSubmit_settled o) st) = false)
    as AI by (intros [d|e] st; reflexivity).
  assert (forall o st,
             FinalResponse.loading (run (FinalResponse.handleSubmit_settled o) st) = false)
    as FR by (intros [d|e] st; reflexivity).
  split; [|split; [|split; [|split; [|split]]]]; try assumption.
  - intros st o s. apply HC.
  - intros st. unfold AdditionalInfo.handleSubmit.
    destruct (negb _); [exact I|]. intros o s. apply AI.
  - intros st. unfold FinalResponse.handleSubmit.
    destruct (negb _); [exact I|]. intros o s. apply FR.
Qed.

(** *** The request lifecycle *)

Lemma lifecycle_loading {R : Type} (l : bool) (r : option R) (e : option jsstring) :
  lifecycle l r e <> None -> l = true -> r = None /\ e = None.
Proof. destruct l, r, e; simpl; intros H E; try congruence; split; reflexivity. Qed.

Lemma lifecycle_exclusive {R : Type} (l : bool) (r : option R) (e : option jsstring) :
  lifecycle l r e <> None -> ~ (r <> None /\ e <> None).
Proof. destruct l, r, e; simpl; intros H [Hr He]; congruence. Qed.

Lemma additional_info_consistent (w : AdditionalInfo.world) :
  AdditionalInfo.reachable w -> AdditionalInfo.consistent w.
Proof.
  induction 1 as [|w w' Hw [Hst Hfl] Hstep].
  - split; [discriminate|]. intros H. now contradiction H.
  - destruct Hstep as [w v Hin|w Hbtn|w o Hflight].
    + split; [exact Hst|]. cbn. intros H. apply Hfl, H.
    + unfold AdditionalInfo.button_disabled in Hbtn.
      apply orb_false_elim in Hbtn. destruct Hbtn as [_ Hq].
      unfold AdditionalInfo.after_submit, AdditionalInfo.handleSubmit. rewrite Hq.
      split; [discriminate|reflexivity].
    + specialize (Hfl Hflight).
      destruct (lifecycle_loading _ _ _ Hst Hfl) as [Hr He].
      split; [|intros H; now contradiction H].
      destruct w as [[q r l e] fl]. cbn in Hr, He, Hfl. subst r e l.
      destruct o as [[d|]|err]; try discriminate.
      cbn. unfold AdditionalInfo.status_of.
      destruct (AdditionalInfo.d_info d) as [i|]; [|discriminate].
      destruct (JsString.truthy i); discriminate.
Qed.

Lemma final_response_consistent (w : FinalResponse.world) :
  FinalResponse.reachable w -> FinalResponse.consistent w.
Proof.
  induction 1 as [|w w' Hw [Hst Hfl] Hstep].
  - split; [discriminate|]. intros H. now contradiction H.
  - destruct Hstep as [w v Hin|w v Hin|w Hbtn|w o Hflight].
    + split; [exact Hst|]. cbn. intros H. apply Hfl, H.
    + split; [exact Hst|]. cbn. intros H. apply Hfl, H.
    + unfold FinalResponse.button_disabled in Hbtn.
      apply orb_false_elim in Hbtn. destruct Hbtn as [_ Hq].
      unfold FinalResponse.after_submit, FinalResponse.handleSubmit. rewrite Hq.
      split; [discriminate|reflexivity].
    + specialize (Hfl Hflight).
      destruct (lifecycle_loading _ _ _ Hst Hfl) as [Hr He].
      split; [|intros H; now contradiction H].
      destruct w as [[c u r l e] fl]. cbn in Hr, He, Hfl. subst r e l.
      destruct o as [[d|]|err]; discriminate.
Qed.

Lemma health_check_loading_no_error (w : HealthCheck.world) :
  HealthCheck.reachable w ->
  HealthCheck.loading (HealthCheck.st w) = true ->
  HealthCheck.error (HealthCheck.st w) = None.
Proof.
  induction 1 as [|w w' Hw IH Hstep]; [reflexivity|].
  destruct Hstep as [w Hl|w o Hflight]; [reflexivity|].
  destruct o; discriminate.
Qed.

(** C9, counterexample.  In HealthCheck a refresh after a successful check
    is loading while the earlier record is still stored: the state is none of
    idle, loading, success, error. *)
Lemma health_check_loading_with_record :
  HealthCheck.reachable Samples.health_refreshing /\
  HealthCheck.loading (HealthCheck.st Samples.health_refreshing) = true /\
  HealthCheck.health (HealthCheck.st Samples.health_refreshing) = Some Samples.healthy /\
  HealthCheck.status_of (HealthCheck.st Samples.health_refreshing) = None.
Proof.
  split; [|repeat split].
  apply (HealthCheck.reach_step Samples.health_shown).
  - apply (HealthCheck.reach_step HealthCheck.mounted); [constructor|].
    exact (HealthCheck.step_settle HealthCheck.mounted (Resolved (Some Samples.healthy)) eq_refl).
  - exact (HealthCheck.step_refresh Samples.health_shown eq_refl).
Qed.

(** C9, amended.  In every state of AdditionalInfo and of FinalResponse
    reached through the rendered form (typing, the submit button, a request
    settling) the status is exactly one of idle, loading, success, error: a
    stored result and an error message never go together, and nothing is
    stored while loading; each new submission resets the status to loading.
    HealthCheck clears only the error when a check starts and keeps the
    record it has: there loading never goes with an error message, while a
    record may stay next to either. *)
Theorem lifecycle_status_exclusive :
  (forall w, AdditionalInfo.reachable w ->
             (exists p, AdditionalInfo.status_of (AdditionalInfo.st w) = Some p) /\
             AdditionalInfo.exclusive (AdditionalInfo.st w)) /\
  (forall w, FinalResponse.reachable w ->
             (exists p, FinalResponse.status_of (FinalResponse.st w) = Some p) /\
             FinalResponse.exclusive (FinalResponse.st w)) /\
  (forall st, AdditionalInfo.status_of (AdditionalInfo.handleSubmit_start st) = Some Loading) /\
  (forall st, FinalResponse.status_of (FinalResponse.handleSubmit_start st) = Some Loading) /\
  (forall w, HealthCheck.reachable w ->
             HealthCheck.loading (HealthCheck.st w) = true ->
             HealthCheck.error (HealthCheck.st w) = None) /\
  (forall st, HealthCheck.health (HealthCheck.checkHealth_start st) = HealthCheck.health st).
Proof.
  split; [|split; [|split; [|split; [|split]]]].
  - intros w Hw. destruct (additional_info_consistent w Hw) as [Hst _].
    split; [|split].
    + destruct (AdditionalInfo.status_of (AdditionalInfo.st w)) as [p|]; [eauto|congruence].
    + exact (lifecycle_exclusive _ _ _ Hst).
    + exact (lifecycle_loading _ _ _ Hst).
  - intros w Hw. destruct (final_response_consistent w Hw) as [Hst _].
    split; [|split].
    + destruct (FinalResponse.status_of (FinalResponse.st w)) as [p|]; [eauto|congruence].
    + exact (lifecycle_exclusive _ _ _ Hst).
    + exact (lifecycle_loading _ _ _ Hst).
  - reflexivity.
  - reflexivity.
  - exact health_check_loading_no_error.
  - reflexivity.
Qed.

Lemma info_submitted_reachable : AdditionalInfo.reachable Samples.info_submitted.
Proof.
  apply (AdditionalInfo.reach_step
           {| AdditionalInfo.st := Samples.info_typed; AdditionalInfo.in_flight := None |}).
  - apply (AdditionalInfo.reach_step
             {| AdditionalInfo.st := AdditionalInfo.init; AdditionalInfo.in_flight := None |}).
    + constructor.
    + exact (AdditionalInfo.step_change
               {| AdditionalInfo.st := AdditionalInfo.init; AdditionalInfo.in_flight := None |}
               (str "  San Diego Zoo  ") eq_refl).
  - exact (AdditionalInfo.step_submit
             {| AdditionalInfo.st := Samples.info_typed; AdditionalInfo.in_flight := None |}
             eq_refl).
Defined.

Lemma final_submitted_reachable : FinalResponse.reachable Samples.final_submitted.
Proof.
  apply (FinalResponse.reach_step
           {| FinalResponse.st := Samples.final_typed; FinalResponse.in_flight := None |}).
  - apply (FinalResponse.reach_step
             {| FinalResponse.st := FinalResponse.init; FinalResponse.in_flight := None |}).
    + constructor.
    + exact (FinalResponse.step_content
               {| FinalResponse.st := FinalResponse.init; FinalResponse.in_flight := None |}
               (str " The Strip is 4.2 miles long. ") eq_refl).
  - exact (FinalResponse.step_submit
             {| FinalResponse.st := Samples.final_typed; FinalResponse.in_flight := None |}
             eq_refl).
Defined.

Lemma lifecycle_status_exclusive_witness :
  AdditionalInfo.exclusive (AdditionalInfo.st Samples.info_submitted) /\
  FinalResponse.exclusive (FinalResponse.st Samples.final_submitted) /\
  HealthCheck.error (HealthCheck.st HealthCheck.mounted) = None.
Proof.
  split; [|split].
  - apply (proj1 lifecycle_status_exclusive Samples.info_submitted).
    exact info_submitted_reachable.
  - apply (proj1 (proj2 lifecycle_status_exclusive) Samples.final_submitted).
    exact final_submitted_reachable.
  - apply (proj1 (proj2 (proj2 (proj2 (proj2 lifecycle_status_exclusive))))
             HealthCheck.mounted).
    + constructor.
    + reflexivity.
Defined.

End ComponentFacts.

(** ** More on cleanResponse *)

Section TextFacts.
Import Regex Direct Text.

Lemma subseq_refl (s : jsstring) : subseq s s.
Proof. induction s; constructor; assumption. Qed.

Lemma subseq_nil_l (s : jsstring) : subseq [] s.
Proof. induction s; constructor; assumption. Qed.

Lemma subseq_app (a a' b b' : jsstring) :
  subseq a a' -> subseq b b' -> subseq (a ++ b) (a' ++ b').
Proof.
  induction 1 as [|x a a' H IH|x a a' H IH]; intros Hb; cbn [app].
  - exact Hb.
  - apply subseq_skip, IH, Hb.
  - apply subseq_take, IH, Hb.
Qed.

Lemma subseq_trans (a b c : jsstring) : subseq a b -> subseq b c -> subseq a c.
Proof.
  intros Hab Hbc. revert a Hab.
  induction Hbc as [|x b c Hbc IH|x b c Hbc IH]; intros a Hab.
  - exact Hab.
  - apply subseq_skip, IH, Hab.
  - inversion Hab as [|y a0 b0 H0|y a0 b0 H0]; subst.
    + apply subseq_skip, IH, H0.
    + apply subseq_take, IH, H0.
Qed.

Lemma subseq_length (a b : jsstring) :
  subseq a b -> (List.length a <= List.length b)%nat.
Proof. induction 1; simpl; lia. Qed.

Lemma subseq_In (a b : jsstring) (c : N) : subseq a b -> In c a -> In c b.
Proof.
  induction 1 as [|x a b H IH|x a b H IH]; intros Hin.
  - exact Hin.
  - right. apply IH, Hin.
  - destruct Hin as [->|Hin]; [left; reflexivity|right; apply IH, Hin].
Qed.

Lemma subseq_forallb (p : N -> bool) (a b : jsstring) :
  subseq a b -> forallb p b = true -> forallb p a = true.
Proof.
  induction 1 as [|x a b H IH|x a b H IH]; simpl; intros Hb.
  - reflexivity.
  - apply andb_prop in Hb. apply IH, Hb.
  - apply andb_prop in Hb. destruct Hb as [-> Hb]. simpl. apply IH, Hb.
Qed.

(** A replacement by the empty string only leaves characters out, whatever
    the matcher. *)
Lemma replace_with_empty_subseq (m : cont) (s : jsstring) (n : nat) :
  subseq (replace_with m [] n s) s.
Proof.
  revert n. induction s as [|x s IH]; intros n.
  - cbn [replace_with]. destruct n; [destruct (match_len m [])|]; constructor.
  - cbn [replace_with]. destruct n as [|n]; [|constructor; apply IH].
    destruct (match_len m (x :: s)) as [[|k]|]; cbn [app].
    + apply subseq_take, IH.
    + apply subseq_skip, IH.
    + apply subseq_take, IH.
Qed.

Lemma after_last_lf_split (s r : jsstring) :
  after_last_lf s = Some r -> exists pre, s = pre ++ LF :: r.
Proof.
  revert r. induction s as [|x s IH]; intros r H; [discriminate|].
  cbn [after_last_lf] in H.
  destruct (JsString.is_ws x); [|discriminate].
  destruct (after_last_lf s) as [r0|].
  - injection H as <-. destruct (IH r0 eq_refl) as (pre & ->).
    exists (x :: pre). reflexivity.
  - destruct (N.eqb_spec x LF) as [->|]; [|discriminate]. injection H as <-.
    exists []. reflexivity.
Qed.

Lemma collapse_subseq_upto (n : nat) :
  forall s, (List.length s <= n)%nat -> subseq (collapse_blank_lines s) s.
Proof.
  induction n as [|n IH]; intros s Hlen.
  - destruct s; [constructor|simpl in Hlen; lia].
  - destruct s as [|x s]; [constructor|].
    simpl in Hlen. rewrite collapse_cons.
    destruct (blank_lines_at (x :: s)) as [r|] eqn:E.
    + cbn [blank_lines_at] in E.
      destruct (N.eqb_spec x LF) as [->|]; [|discriminate]. cbn [andb] in E.
      destruct (2 <=? count_lf (ws_run s))%nat; [|discriminate].
      destruct (after_last_lf_split s r E) as (pre & ->).
      apply subseq_take.
      apply (subseq_app [] pre (LF :: collapse_blank_lines r) (LF :: r)).
      * apply subseq_nil_l.
      * apply subseq_take, IH. rewrite length_app in Hlen. simpl in Hlen. lia.
    + apply subseq_take, IH. lia.
Qed.

Lemma collapse_subseq (s : jsstring) : subseq (collapse_blank_lines s) s.
Proof. apply (collapse_subseq_upto (List.length s)), Nat.le_refl. Qed.

Lemma subseq_substring (a t b : jsstring) : subseq t (a ++ t ++ b).
Proof.
  apply (subseq_app [] a t (t ++ b)); [apply subseq_nil_l|].
  induction t as [|x t IH]; [apply subseq_nil_l|]. apply subseq_take, IH.
Qed.

Lemma trim_subseq (s : jsstring) : subseq (JsString.trim s) s.
Proof.
  destruct (trim_substring s) as (a & b & E).
  pose proof (subseq_substring a (JsString.trim s) b) as H.
  rewrite <- E in H. exact H.
Qed.

Lemma clean_subseq (text : jsstring) : subseq (Direct.clean text) text.
Proof.
  unfold Direct.clean, remove_all.
  eapply subseq_trans; [apply trim_subseq|].
  eapply subseq_trans; [apply collapse_subseq|].
  eapply subseq_trans; [apply replace_with_empty_subseq|].
  eapply subseq_trans; [apply replace_with_empty_subseq|].
  apply replace_with_empty_subseq.
Qed.

(** *** Trimmed text *)

Lemma trimStart_starts_clean (s : jsstring) : starts_clean (JsString.trimStart s).
Proof.
  induction s as [|x s IH]; [exact I|].
  cbn [JsString.trimStart]. destruct (JsString.is_ws x) eqn:E; [exact IH|exact E].
Qed.

Lemma trimStart_id (s : jsstring) : starts_clean s -> JsString.trimStart s = s.
Proof.
  destruct s as [|x s]; [reflexivity|]. cbn [starts_clean JsString.trimStart].
  intros ->. reflexivity.
Qed.

Lemma trimEnd_prefix (s : jsstring) : exists b, s = JsString.trimEnd s ++ b.
Proof.
  destruct (trimStart_suffix (rev s)) as [a Ha].
  exists (rev a). unfold JsString.trimEnd.
  rewrite <- rev_app_distr, <- Ha, rev_involutive. reflexivity.
Qed.

Lemma trimEnd_starts_clean (s : jsstring) :
  starts_clean s -> starts_clean (JsString.trimEnd s).
Proof.
  intros H. destruct (trimEnd_prefix s) as [b E].
  destruct (JsString.trimEnd s) as [|x t]; [exact I|].
  rewrite E in H. exact H.
Qed.

Lemma trimEnd_ends_clean (s : jsstring) : starts_clean (rev (JsString.trimEnd s)).
Proof.
  unfold JsString.trimEnd. rewrite rev_involutive. apply trimStart_starts_clean.
Qed.

Lemma trim_idempotent (s : jsstring) :
  JsString.trim (JsString.trim s) = JsString.trim s.
Proof.
  unfold JsString.trim at 1.
  rewrite trimStart_id
    by (apply trimEnd_starts_clean, trimStart_starts_clean).
  unfold JsString.trim, JsString.trimEnd at 1.
  rewrite trimStart_id by apply trimEnd_ends_clean.
  apply rev_involutive.
Qed.

Lemma trim_trimmed (s : jsstring) : trimmed (JsString.trim s).
Proof.
  split.
  - intros c rest E.
    pose proof (trimEnd_starts_clean _ (trimStart_starts_clean s)) as H.
    fold (JsString.trim s) in H. rewrite E in H. exact H.
  - intros init c E.
    pose proof (trimEnd_ends_clean (JsString.trimStart s)) as H.
    fold (JsString.trim s) in H. rewrite E, rev_app_distr in H. exact H.
Qed.

Lemma no_lt_no_markup (s : jsstring) : ~ In LT s -> has_tag_markup s = false.
Proof.
  induction s as [|x s IH]; intros H; [reflexivity|].
  cbn [has_tag_markup tag_start].
  destruct (N.eqb_spec x LT) as [->|_]; [exfalso; apply H; left; reflexivity|].
  cbn [andb orb]. apply IH. intros Hin. apply H. right. exact Hin.
Qed.

Lemma all_ws_no_lt (s : jsstring) : forallb JsString.is_ws s = true -> ~ In LT s.
Proof.
  intros H Hin. rewrite forallb_forall in H. specialize (H _ Hin). discriminate.
Qed.

Lemma clean_all_ws (text : jsstring) :
  forallb JsString.is_ws text = true -> Clean.cleanResponse text = [].
Proof.
  intros H. rewrite clean_steps.
  rewrite (clean_plain text (no_lt_no_markup text (all_ws_no_lt text H))).
  apply trim_all_ws. apply (subseq_forallb _ _ text); [apply collapse_subseq|exact H].
Qed.

End TextFacts.

(** ** Further properties of cleanResponse *)

(** X1.  cleanResponse only leaves characters out: its result is the input
    with some characters dropped, in the same order, and so never longer. *)
Theorem cleanResponse_subsequence (text : jsstring) :
  Text.subseq (Clean.cleanResponse text) text /\
  (List.length (Clean.cleanResponse text) <= List.length text)%nat.
Proof.
  assert (Text.subseq (Clean.cleanResponse text) text) as H
    by (rewrite clean_steps; apply clean_subseq).
  split; [exact H|apply subseq_length, H].
Qed.

(** X2.  The result of cleanResponse neither starts nor ends with white
    space: trimming it again changes nothing. *)
Theorem cleanResponse_trimmed (text : jsstring) :
  JsString.trim (Clean.cleanResponse text) = Clean.cleanResponse text /\
  Text.trimmed (Clean.cleanResponse text).
Proof.
  rewrite clean_steps. unfold Direct.clean.
  split; [apply trim_idempotent|apply trim_trimmed].
Qed.

(** X3.  A text of white space only is cleaned to the empty string. *)
Theorem cleanResponse_white_space (text : jsstring) :
  forallb JsString.is_ws text = true -> Clean.cleanResponse text = [].
Proof. apply clean_all_ws. Qed.

Lemma cleanResponse_white_space_witness :
  Clean.cleanResponse (str "  " ++ [Regex.LF; 9; Regex.LF; Regex.LF; 160]) = [].
Proof. apply cleanResponse_white_space. vm_compute. reflexivity. Defined.

(** ** Further properties of the components *)

Section MoreComponentFacts.
Import Js.

Lemma or_lit_nonempty (a : option jsstring) (lit : jsstring) :
  lit <> [] -> or_lit a lit <> [].
Proof.
  intros Hl. unfold or_lit. destruct a as [[|c s]|]; cbn; try assumption. discriminate.
Qed.

Lemma shown_nonempty (s : jsstring) : s <> [] -> Render.shown (Some s) = Some s.
Proof. destruct s; [congruence|reflexivity]. Qed.


(** X4.  AdditionalInfo: a response whose [info] is not empty but is cleaned
    to the empty string (white space, or tool calls only) is stored as a
    result with an empty [info] and no error; the result panel then shows
    its "No information was returned" branch. *)
Theorem markup_only_info_is_shown_empty
        (st : AdditionalInfo.state) (d : AdditionalInfo.InfoData) (i : jsstring) :
  AdditionalInfo.d_info d = Some i -> i <> [] -> Clean.cleanResponse i = [] ->
  let after := run (AdditionalInfo.handleSubmit_settled (Resolved (Some d)))
                   (AdditionalInfo.handleSubmit_start st) in
  AdditionalInfo.result after = Some (AdditionalInfo.with_info d []) /\
  AdditionalInfo.error after = None /\
  Render.iv_error (Render.additional_info after) = None /\
  option_map Render.ir_body (Render.iv_result (Render.additional_info after))
  = Some Render.NoInformation.
Proof.
  intros Hi Hne Hc. cbn zeta.
  unfold AdditionalInfo.handleSubmit_settled, run, try_catch_finally, bind, await.
  rewrite Hi. destruct i as [|c i]; [congruence|]. cbn [JsString.truthy].
  rewrite Hc. repeat split.
Qed.

Lemma markup_only_info_is_shown_empty_witness :
  option_map Render.ir_body
    (Render.iv_result
       (Render.additional_info
          (run (AdditionalInfo.handleSubmit_settled (Resolved (Some MoreSamples.tool_call_only)))
               (AdditionalInfo.handleSubmit_start Samples.info_typed))))
  = Some Render.NoInformation.
Proof.
  apply (markup_only_info_is_shown_empty Samples.info_typed MoreSamples.tool_call_only
           (str "<duckduckgo_search>zoo hours</duckduckgo_search>")).
  - reflexivity.
  - discriminate.
  - vm_compute. reflexivity.
Defined.


(** X6.  AdditionalInfo: whenever the submit button is enabled, handleSubmit
    sends the request; it sends none exactly when the trimmed query is empty,
    and then it only sets the error to "Please enter a query": query, result
    and loading stay as they are. *)
Theorem additional_info_validation (st : AdditionalInfo.state) :
  (AdditionalInfo.button_disabled st = false ->
   request_of (AdditionalInfo.handleSubmit st)
   = Some [("query"%string, VString (AdditionalInfo.query st))]) /\
  (request_of (AdditionalInfo.handleSubmit st) = None
   <-> JsString.trim (AdditionalInfo.query st) = []) /\
  (JsString.trim (AdditionalInfo.query st) = [] ->
   exists st',
     AdditionalInfo.handleSubmit st = Return st' /\
     AdditionalInfo.error st' = Some (str "Please enter a query") /\
     AdditionalInfo.query st' = AdditionalInfo.query st /\
     AdditionalInfo.result st' = AdditionalInfo.result st /\
     AdditionalInfo.loading st' = AdditionalInfo.loading st).
Proof.
  unfold AdditionalInfo.button_disabled, AdditionalInfo.handleSubmit.
  destruct (JsString.trim (AdditionalInfo.query st)) as [|c t] eqn:E; cbn.
  - split; [|split].
    + rewrite orb_true_r. discriminate.
    + split; reflexivity.
    + intros _. eexists. repeat split.
  - split; [|split].
    + reflexivity.
    + split; discriminate.
    + discriminate.
Qed.

Lemma additional_info_validation_witness :
  request_of (AdditionalInfo.handleSubmit Samples.info_typed)
  = Some [("query"%string, VString (str "  San Diego Zoo  "))] /\
  request_of (AdditionalInfo.handleSubmit AdditionalInfo.init) = None.
Proof.
  split.
  - apply (proj1 (additional_info_validation Samples.info_typed)). reflexivity.
  - apply (proj1 (proj2 (additional_info_validation AdditionalInfo.init))). reflexivity.
Defined.

(** X7.  FinalResponse: whenever the submit button is enabled, handleSubmit
    sends the request; it sends none exactly when the trimmed content is
    empty, and then it only sets the error to "Please enter content to
    synthesize". *)
Theorem final_response_validation (st : FinalResponse.state) :
  (FinalResponse.button_disabled st = false ->
   request_of (FinalResponse.handleSubmit st) = Some (FinalResponse.payload st)) /\
  (request_of (FinalResponse.handleSubmit st) = None
   <-> JsString.trim (FinalResponse.content st) = []) /\
  (JsString.trim (FinalResponse.content st) = [] ->
   exists st',
     FinalResponse.handleSubmit st = Return st' /\
     FinalResponse.error st' = Some (str "Please enter content to synthesize") /\
     FinalResponse.content st' = FinalResponse.content st /\
     FinalResponse.userQuery st' = FinalResponse.userQuery st /\
     FinalResponse.result st' = FinalResponse.result st /\
     FinalResponse.loading st' = FinalResponse.loading st).
Proof.
  unfold FinalResponse.button_disabled, FinalResponse.handleSubmit.
  destruct (JsString.trim (FinalResponse.content st)) as [|c t] eqn:E; cbn.
  - split; [|split].
    + rewrite orb_true_r. discriminate.
    + split; reflexivity.
    + intros _. eexists. repeat split.
  - split; [|split].
    + reflexivity.
    + split; discriminate.
    + discriminate.
Qed.

Lemma final_response_validation_witness :
  request_of (FinalResponse.handleSubmit Samples.final_typed)
  = Some (FinalResponse.payload Samples.final_typed) /\
  request_of (FinalResponse.handleSubmit FinalResponse.init) = None.
Proof.
  split.
  - apply (proj1 (final_response_validation Samples.final_typed)). reflexivity.
  - apply (proj1 (proj2 (final_response_validation FinalResponse.init))). reflexivity.
Defined.

(** *** ChatInput *)

Lemma handleSubmit_calls (st : ChatInput.state) (c : jsstring) :
  In c (snd (ChatInput.handleSubmit st)) -> c <> [] /\ JsString.trim c = c.
Proof.
  unfold ChatInput.handleSubmit.
  destruct (JsString.truthy (JsString.trim (ChatInput.message st))) eqn:E; cbn.
  - intros [<-|[]]. split; [apply truthy_nonempty, E|apply trim_idempotent].
  - intros [].
Qed.

Lemma dispatch_calls (disabled : bool) (ev : ChatInput.event) (st : ChatInput.state)
      (c : jsstring) :
  In c (snd (ChatInput.dispatch disabled ev st)) -> c <> [] /\ JsString.trim c = c.
Proof.
  destruct ev as [v| |key shift]; cbn [ChatInput.dispatch].
  - destruct (ChatInput.textarea_disabled disabled st); intros [].
  - destruct (ChatInput.button_disabled disabled st); [intros []|apply handleSubmit_calls].
  - destruct (ChatInput.textarea_disabled disabled st); [intros []|].
    unfold ChatInput.handleKeyDown.
    destruct (JsString.eqb key (str "Enter") && negb shift);
      [apply handleSubmit_calls|intros []].
Qed.

(** X8.  ChatInput: a second submit right after a submit sends nothing and
    changes nothing: a message is sent at most once. *)
Theorem chat_submit_twice (st : ChatInput.state) :
  ChatInput.handleSubmit (fst (ChatInput.handleSubmit st))
  = (fst (ChatInput.handleSubmit st), []).
Proof.
  unfold ChatInput.handleSubmit at 2 3.
  destruct (JsString.truthy (JsString.trim (ChatInput.message st))) eqn:E; cbn [fst].
  - reflexivity.
  - unfold ChatInput.handleSubmit. rewrite E. reflexivity.
Qed.

(** X9.  ChatInput: whatever the events and the [disabled] flag, every
    message handed to onSendMessage is non-empty and has no white space at
    either end. *)
Theorem chat_sends_trimmed (disabled : bool) (evs : list ChatInput.event)
        (st : ChatInput.state) (c : jsstring) :
  In c (snd (ChatInput.dispatch_all disabled evs st)) ->
  c <> [] /\ JsString.trim c = c.
Proof.
  revert st. induction evs as [|ev evs IH]; intros st; cbn [ChatInput.dispatch_all].
  - intros [].
  - pose proof (dispatch_calls disabled ev st c) as H1.
    destruct (ChatInput.dispatch disabled ev st) as [st1 c1].
    specialize (IH st1).
    destruct (ChatInput.dispatch_all disabled evs st1) as [st2 c2].
    cbn [snd] in *. intros Hin. apply in_app_or in Hin.
    destruct Hin as [Hin|Hin]; [apply H1, Hin|apply IH, Hin].
Qed.

Lemma chat_sends_trimmed_witness :
  str "hello" <> [] /\ JsString.trim (str "hello") = str "hello".
Proof.
  apply (chat_sends_trimmed false
           [ChatInput.Change (str "  hello "); ChatInput.KeyDown (str "Enter") false;
            ChatInput.Click]
           (ChatInput.Build_state [])).
  vm_compute. left. reflexivity.
Defined.

(** X10.  ChatInput: a key other than Enter, or Enter with Shift, sends
    nothing and leaves the field as it is. *)
Theorem chat_other_keys (key : jsstring) (shiftKey : bool) (st : ChatInput.state) :
  key <> str "Enter" \/ shiftKey = true ->
  ChatInput.handleKeyDown key shiftKey st = (st, []).
Proof.
  unfold ChatInput.handleKeyDown, JsString.eqb.
  intros [Hk| ->].
  - destruct (list_eq_dec N.eq_dec key (str "Enter")); [contradiction|reflexivity].
  - rewrite andb_false_r. reflexivity.
Qed.

Lemma chat_other_keys_witness :
  ChatInput.handleKeyDown (str "Enter") true (ChatInput.Build_state (str "line one"))
  = (ChatInput.Build_state (str "line one"), []) /\
  ChatInput.handleKeyDown (str "a") false (ChatInput.Build_state (str "line one"))
  = (ChatInput.Build_state (str "line one"), []).
Proof.
  split.
  - apply chat_other_keys. right. reflexivity.
  - apply chat_other_keys. left. vm_compute. discriminate.
Defined.

(** *** The [code] override *)

Lemma strip_prefix_exact (p s r : jsstring) :
  Direct.strip_prefix false p s = Some r <-> s = p ++ r.
Proof.
  revert s. induction p as [|c p IH]; intros s; cbn [Direct.strip_prefix app].
  - split; [intros H; injection H as ->; reflexivity|intros ->; reflexivity].
  - destruct s as [|x s]; [split; discriminate|].
    unfold Direct.same_char. cbn [Regex.canonicalize andb].
    destruct (N.eqb_spec x c) as [->|Hx].
    + rewrite IH. split; [intros ->; reflexivity|intros H; injection H as ->; reflexivity].
    + split; [discriminate|intros H; injection H as -> _; contradiction].
Qed.

Lemma star_greedy_total (p : N -> bool) (s : jsstring) :
  Regex.star_greedy p s (fun r => Some r) <> None.
Proof.
  induction s as [|x s IH]; cbn [Regex.star_greedy]; [discriminate|].
  destruct (p x); [|discriminate].
  destruct (Regex.star_greedy p s (fun r => Some r)); [discriminate|contradiction].
Qed.

Lemma language_at_iff (s : jsstring) :
  MarkdownCode.language_at s <> None
  <-> exists w post, s = str "language-" ++ w :: post /\ MarkdownCode.is_word w = true.
Proof.
  unfold MarkdownCode.language_at. rewrite rmatch_lit.
  destruct (Direct.strip_prefix false (str "language-") s) as [r|] eqn:E.
  - apply strip_prefix_exact in E. subst s. split.
    + destruct r as [|w post]; [intros H; now contradiction H|].
      destruct (MarkdownCode.is_word w) eqn:Hw; [|intros H; now contradiction H].
      intros _. exists w, post. split; [reflexivity|exact Hw].
    + intros (w & post & E & Hw). apply app_inv_head in E. subst r.
      rewrite Hw. apply star_greedy_total.
  - split; [intros H; now contradiction H|].
    intros (w & post & -> & _).
    rewrite (proj2 (strip_prefix_exact _ _ _) eq_refl) in E. discriminate.
Qed.

Lemma exec_iff (m : Regex.cont) (s : jsstring) :
  MarkdownCode.exec m s <> None <-> exists pre suf, s = pre ++ suf /\ m suf <> None.
Proof.
  induction s as [|x s IH]; cbn [MarkdownCode.exec].
  - destruct (m []) eqn:E.
    + split; [intros _; exists [], []; split; [reflexivity|congruence]|discriminate].
    + split; [intros H; now contradiction H|].
      intros (pre & suf & Hs & Hm). symmetry in Hs. apply app_eq_nil in Hs.
      destruct Hs as [_ ->]. contradiction.
  - destruct (m (x :: s)) eqn:E.
    + split; [intros _; exists [], (x :: s); split; [reflexivity|congruence]|discriminate].
    + rewrite IH. split.
      * intros (pre & suf & -> & Hm). exists (x :: pre), suf. split; [reflexivity|exact Hm].
      * intros (pre & suf & Hs & Hm). destruct pre as [|y pre].
        -- cbn in Hs. subst suf. contradiction.
        -- injection Hs as _ ->. exists pre, suf. split; [reflexivity|exact Hm].
Qed.

(** X11.  The [code] override of both Markdown panels treats the element as
    a block exactly when its [className] holds "language-" followed by a
    word character; a block keeps its [className], anything else gets the
    inline style in its place. *)
Theorem code_block_iff (className : option jsstring) :
  (MarkdownCode.isInline className = false
   <-> exists pre w post,
         className = Some (pre ++ str "language-" ++ w :: post) /\
         MarkdownCode.is_word w = true) /\
  (MarkdownCode.isInline className = false ->
   MarkdownCode.code_class className = className) /\
  (MarkdownCode.isInline className = true ->
   MarkdownCode.code_class className = Some MarkdownCode.inline_class).
Proof.
  split; [|split; unfold MarkdownCode.code_class; intros ->; reflexivity].
  unfold MarkdownCode.isInline.
  destruct className as [c|]; cbn [truthy MarkdownCode.class_or_empty].
  - destruct c as [|x c]; cbn [JsString.truthy negb orb].
    + split; [discriminate|]. intros (pre & w & post & E & _).
      injection E as E. destruct pre; discriminate.
    + pose proof (exec_iff MarkdownCode.language_at (x :: c)) as H.
      destruct (MarkdownCode.exec MarkdownCode.language_at (x :: c)) as [r|]; cbn.
      * split; [intros _|reflexivity].
        destruct (proj1 H) as (pre & suf & -> & Hm); [discriminate|].
        apply language_at_iff in Hm. destruct Hm as (w & post & -> & Hw).
        exists pre, w, post. split; [reflexivity|exact Hw].
      * split; [discriminate|]. intros (pre & w & post & E & Hw). exfalso.
        injection E as E. apply (proj2 H); [|reflexivity].
        exists pre, (str "language-" ++ w :: post). split; [exact E|].
        apply language_at_iff. exists w, post. split; [reflexivity|exact Hw].
  - split; [discriminate|]. intros (pre & w & post & E & _). discriminate.
Qed.

Lemma code_block_iff_witness :
  MarkdownCode.code_class (Some (str "hljs language-python"))
  = Some (str "hljs language-python") /\
  MarkdownCode.code_class (Some (str "language-")) = Some MarkdownCode.inline_class.
Proof.
  split.
  - apply (proj1 (proj2 (code_block_iff (Some (str "hljs language-python"))))).
    apply (proj2 (proj1 (code_block_iff (Some (str "hljs language-python"))))).
    exists (str "hljs "), 112, (str "ython"). split; reflexivity.
  - apply (proj2 (proj2 (code_block_iff (Some (str "language-"))))).
    vm_compute. reflexivity.
Defined.

(** *** What is stored and shown *)

(** X12.  HealthCheck changes the stored record only when a check resolves:
    starting a check and a rejected check keep it, so after a failed refresh
    the earlier record is shown next to the error; a resolved check replaces
    it and shows no error. *)
Theorem health_record_kept (st : HealthCheck.state) :
  (forall err,
      let after := run (HealthCheck.checkHealth_settled (Rejected err))
                       (HealthCheck.checkHealth_start st) in
      Render.hv_health (Render.health_check after) = HealthCheck.health st /\
      Render.hv_error (Render.health_check after) = Some (HealthCheck.errorMessage err) /\
      Render.hv_loading (Render.health_check after) = false) /\
  (forall data,
      let after := run (HealthCheck.checkHealth_settled (Resolved data))
                       (HealthCheck.checkHealth_start st) in
      Render.hv_health (Render.health_check after) = data /\
      Render.hv_error (Render.health_check after) = None /\
      Render.hv_loading (Render.health_check after) = false).
Proof.
  split.
  - intros err. cbn. repeat split. apply shown_nonempty, or_lit_nonempty. discriminate.
  - intros data. cbn. repeat split.
Qed.

Lemma additional_info_result_cleaned (w : AdditionalInfo.world) :
  AdditionalInfo.reachable w ->
  forall d, AdditionalInfo.result (AdditionalInfo.st w) = Some d ->
  exists raw, raw <> [] /\ AdditionalInfo.d_info d = Some (Clean.cleanResponse raw).
Proof.
  induction 1 as [|w w' Hw IH Hstep]; [discriminate|].
  destruct Hstep as [w v Hin|w Hbtn|w o Hflight].
  - exact IH.
  - unfold AdditionalInfo.button_disabled in Hbtn.
    apply orb_false_elim in Hbtn. destruct Hbtn as [_ Hq].
    unfold AdditionalInfo.after_submit, AdditionalInfo.handleSubmit. rewrite Hq.
    discriminate.
  - destruct o as [[d0|]|err]; try exact IH.
    cbn. unfold AdditionalInfo.handleSubmit_settled, run, try_catch_finally, bind, await.
    destruct (AdditionalInfo.d_info d0) as [i|]; [|exact IH].
    destruct i as [|c i]; [exact IH|].
    cbn. intros d E. injection E as <-. exists (c :: i). split; [discriminate|reflexivity].
Qed.

(** X13.  AdditionalInfo: in every state reached through the form, the
    stored result holds cleaned text: its [info] is the cleanResponse of a
    non-empty response text, so it has no white space at either end and
    nowhere three line feeds in a row. *)
Theorem stored_info_is_cleaned (w : AdditionalInfo.world) (d : AdditionalInfo.InfoData) :
  AdditionalInfo.reachable w ->
  AdditionalInfo.result (AdditionalInfo.st w) = Some d ->
  exists raw i,
    raw <> [] /\ i = Clean.cleanResponse raw /\
    AdditionalInfo.d_info d = Some i /\
    JsString.trim i = i /\
    (forall pre post, i <> pre ++ [Regex.LF; Regex.LF; Regex.LF] ++ post).
Proof.
  intros Hw Hd. destruct (additional_info_result_cleaned w Hw d Hd) as (raw & Hne & Hi).
  exists raw, (Clean.cleanResponse raw). repeat split; try assumption.
  - rewrite clean_steps. apply trim_idempotent.
  - intros pre post. rewrite clean_steps. apply trim_collapse_no_triple.
Qed.

Lemma info_answered_reachable : AdditionalInfo.reachable MoreSamples.info_answered.
Proof.
  apply (AdditionalInfo.reach_step Samples.info_submitted).
  - exact info_submitted_reachable.
  - apply (AdditionalInfo.step_settle Samples.info_submitted
             (Resolved (Some MoreSamples.zoo_data))).
    discriminate.
Defined.

Lemma stored_info_is_cleaned_witness :
  exists raw i,
    raw <> [] /\ i = Clean.cleanResponse raw /\
    AdditionalInfo.d_info
      (AdditionalInfo.with_info MoreSamples.zoo_data (str "Open daily from 9 to 5."))
    = Some i /\
    JsString.trim i = i /\
    (forall pre post, i <> pre ++ [Regex.LF; Regex.LF; Regex.LF] ++ post).
Proof.
  apply (stored_info_is_cleaned MoreSamples.info_answered).
  - exact info_answered_reachable.
  - vm_compute. reflexivity.
Defined.

Lemma additional_info_loading_in_flight (w : AdditionalInfo.world) :
  AdditionalInfo.reachable w ->
  AdditionalInfo.loading (AdditionalInfo.st w) = true -> AdditionalInfo.in_flight w <> None.
Proof.
  induction 1 as [|w w' Hw IH Hstep]; [discriminate|].
  destruct Hstep as [w v Hin|w Hbtn|w o Hflight].
  - exact IH.
  - unfold AdditionalInfo.button_disabled in Hbtn.
    apply orb_false_elim in Hbtn. destruct Hbtn as [_ Hq].
    unfold AdditionalInfo.after_submit, AdditionalInfo.handleSubmit. rewrite Hq.
    discriminate.
  - intros Hl. exfalso.
    assert (AdditionalInfo.loading
              (run (AdditionalInfo.handleSubmit_settled o) (AdditionalInfo.st w)) = false)
      as Hf by (destruct o; reflexivity).
    cbn [AdditionalInfo.st] in Hl. congruence.
Qed.

Lemma final_response_loading_in_flight (w : FinalResponse.world) :
  FinalResponse.reachable w ->
  FinalResponse.loading (FinalResponse.st w) = true -> FinalResponse.in_flight w <> None.
Proof.
  induction 1 as [|w w' Hw IH Hstep]; [discriminate|].
  destruct Hstep as [w v Hin|w v Hin|w Hbtn|w o Hflight].
  - exact IH.
  - exact IH.
  - unfold FinalResponse.button_disabled in Hbtn.
    apply orb_false_elim in Hbtn. destruct Hbtn as [_ Hq].
    unfold FinalResponse.after_submit, FinalResponse.handleSubmit. rewrite Hq.
    discriminate.
  - intros Hl. exfalso.
    assert (FinalResponse.loading
              (run (FinalResponse.handleSubmit_settled o) (FinalResponse.st w)) = false)
      as Hf by (destruct o; reflexivity).
    cbn [FinalResponse.st] in Hl. congruence.
Qed.

Lemma health_check_loading_in_flight (w : HealthCheck.world) :
  HealthCheck.reachable w ->
  HealthCheck.in_flight w = HealthCheck.loading (HealthCheck.st w).
Proof.
  induction 1 as [|w w' Hw IH Hstep]; [reflexivity|].
  destruct Hstep as [w Hl|w o Hflight]; [reflexivity|].
  destruct o; reflexivity.
Qed.

(** X14.  In each component, in every state reached through its controls,
    loading is set exactly while a request is in flight; the controls that
    start a request are then disabled, so a form never has two requests in
    flight. *)
Theorem loading_iff_in_flight :
  (forall w, AdditionalInfo.reachable w ->
             (AdditionalInfo.in_flight w <> None
              <-> AdditionalInfo.loading (AdditionalInfo.st w) = true) /\
             (AdditionalInfo.in_flight w <> None ->
              Render.iv_button_disabled (Render.additional_info (AdditionalInfo.st w)) = true /\
              Render.iv_input_disabled (Render.additional_info (AdditionalInfo.st w)) = true)) /\
  (forall w, FinalResponse.reachable w ->
             (FinalResponse.in_flight w <> None
              <-> FinalResponse.loading (FinalResponse.st w) = true) /\
             (FinalResponse.in_flight w <> None ->
              Render.fv_button_disabled (Render.final_response (FinalResponse.st w)) = true /\
              Render.fv_input_disabled (Render.final_response (FinalResponse.st w)) = true)) /\
  (forall w, HealthCheck.reachable w ->
             HealthCheck.in_flight w = HealthCheck.loading (HealthCheck.st w) /\
             Render.hv_button_disabled (Render.health_check (HealthCheck.st w))
             = HealthCheck.in_flight w).
Proof.
  split; [|split].
  - intros w Hw. destruct (additional_info_consistent w Hw) as [_ Hfl].
    split; [split; [exact Hfl|exact (additional_info_loading_in_flight w Hw)]|].
    intros H. specialize (Hfl H). cbn.
    unfold AdditionalInfo.button_disabled, AdditionalInfo.input_disabled.
    rewrite Hfl. split; reflexivity.
  - intros w Hw. destruct (final_response_consistent w Hw) as [_ Hfl].
    split; [split; [exact Hfl|exact (final_response_loading_in_flight w Hw)]|].
    intros H. specialize (Hfl H). cbn.
    unfold FinalResponse.button_disabled, FinalResponse.input_disabled.
    rewrite Hfl. split; reflexivity.
  - intros w Hw. pose proof (health_check_loading_in_flight w Hw) as H.
    split; [exact H|]. cbn. symmetry. exact H.
Qed.

Lemma loading_iff_in_flight_witness :
  Render.iv_button_disabled
    (Render.additional_info (AdditionalInfo.st Samples.info_submitted)) = true /\
  Render.iv_input_disabled
    (Render.additional_info (AdditionalInfo.st Samples.info_submitted)) = true.
Proof.
  apply (proj2 (proj1 loading_iff_in_flight Samples.info_submitted info_submitted_reachable)).
  vm_compute. discriminate.
Defined.

(** X15.  FinalResponse stores what the request resolves to as it is,
    without cleaning it and without an empty-response check: a response
    whose [response] is missing or empty shows the result panel without a
    body and without an error, and a response of no data at all shows
    neither a result nor an error. *)
Theorem final_response_empty_is_silent (st : FinalResponse.state) :
  (forall data,
      FinalResponse.result
        (run (FinalResponse.handleSubmit_settled (Resolved data))
             (FinalResponse.handleSubmit_start st)) = data) /\
  (forall d,
      truthy (FinalResponse.d_response d) = false ->
      let view := Render.final_response
                    (run (FinalResponse.handleSubmit_settled (Resolved (Some d)))
                         (FinalResponse.handleSubmit_start st)) in
      option_map Render.fr_body (Render.fv_result view) = Some None /\
      Render.fv_error view = None /\ Render.fv_loading view = false) /\
  (let view := Render.final_response
                 (run (FinalResponse.handleSubmit_settled (Resolved None))
                      (FinalResponse.handleSubmit_start st)) in
   Render.fv_result view = None /\ Render.fv_error view = None /\
   Render.fv_loading view = false).
Proof.
  split; [|split].
  - intros data. reflexivity.
  - intros d Hd. cbn. unfold Render.shown. rewrite Hd. repeat split.
  - cbn. repeat split.
Qed.

Lemma final_response_empty_is_silent_witness :
  option_map Render.fr_body
    (Render.fv_result
       (Render.final_response
          (run (FinalResponse.handleSubmit_settled
                  (Resolved (Some (FinalResponse.Build_FinalData (Some true) (Some []) None))))
               (FinalResponse.handleSubmit_start Samples.final_typed))))
  = Some None.
Proof.
  apply (proj1 (proj2 (final_response_empty_is_silent Samples.final_typed))
           (FinalResponse.Build_FinalData (Some true) (Some []) None)).
  reflexivity.
Defined.

End MoreComponentFacts.
